(** * warc_parser: a shallow embedding of [parser/warc_parser.py]

    The development follows the source file top to bottom:

    - [Py]: the Python built-ins the parser relies on ([bytes.find],
      slicing, [split], [join], [lstrip]/[rstrip], UTF-8 [decode]/[encode],
      [str.format] with positional field 0, an insertion-ordered [dict]);
    - the module constants [LINE_DELIMITER] and [BLOCK_DELIMITER];
    - [WetEntry] ([__init__], [_parse_header], [_parse_body]);
    - [Parser.parse] (the chunked read loop, the inner [while] loop, the
      final flush) and the report of the [__main__] block.

    Exceptions are values of [exn]; fallible code returns [result].
    [chardet.detect], the codec behind [bytes.decode(encoding)] and
    [str.lower] are collaborators outside the file and are taken as
    section variables. *)

From Stdlib Require Import ZArith NArith List Bool Lia Floats.
From Stdlib.Strings Require Import String Ascii Byte.
Import ListNotations.
Open Scope Z_scope.

(* ================================================================== *)
(** * Python built-ins *)
(* ================================================================== *)

Module Py.

(** Exceptions that can travel through the parser. *)
Inductive exn : Type :=
| EncodingDetectionError (encoding : option string)
| DecodingFailureError (encoding : option string) (partial_block : list byte)
| UnicodeDecodeError
| UnicodeEncodeError
| LookupError
| TypeError
| AssertionError
| ZeroDivisionError
| OverflowError.

Inductive result (A : Type) : Type :=
| Ok (a : A)
| Raise (e : exn).
Arguments Ok {A} a.
Arguments Raise {A} e.

Definition bind {A B} (r : result A) (k : A -> result B) : result B :=
  match r with
  | Ok a => k a
  | Raise e => Raise e
  end.

Notation "x <- r ;; k" := (bind r (fun x => k))
  (at level 61, r at next level, right associativity).

(** ** Sequences ([bytes] and [str] share these operations) *)

Section Sequences.
Context {A : Type} (eqb : A -> A -> bool).

Definition len (s : list A) : Z := Z.of_nat (List.length s).

(** [s.startswith(pat)] *)
Fixpoint starts_with (pat s : list A) : bool :=
  match pat, s with
  | [], _ => true
  | _ :: _, [] => false
  | p :: pat', x :: s' => eqb p x && starts_with pat' s'
  end.

(** Lowest offset at which [pat] occurs in [s]. *)
Fixpoint find_nat (pat s : list A) : option nat :=
  if starts_with pat s then Some O
  else match s with
       | [] => None
       | _ :: s' => option_map S (find_nat pat s')
       end.

(** [s.find(pat)]: the lowest index, or [-1]. *)
Definition find (s pat : list A) : Z :=
  match find_nat pat s with
  | Some i => Z.of_nat i
  | None => -1
  end.

(** A slice bound as Python normalises it: a negative bound counts
    from the end, and the result is clamped to [0 .. len s]. *)
Definition bound (s : list A) (k : Z) : nat :=
  Z.to_nat (if k <? 0 then Z.max 0 (k + len s) else k).

(** [s[:k]] *)
Definition slice_to (s : list A) (k : Z) : list A := firstn (bound s k) s.

(** [s[k:]] *)
Definition slice_from (s : list A) (k : Z) : list A := skipn (bound s k) s.

(** [n * s] *)
Fixpoint repeat_seq (n : nat) (s : list A) : list A :=
  match n with
  | O => []
  | S n' => s ++ repeat_seq n' s
  end.

(** [s.split(sep)] for a non-empty [sep]: left to right, occurrences do
    not overlap.  [skip] counts the bytes of a matched separator that
    are still to be passed over; [cur] is the piece being read,
    reversed. *)
Fixpoint split_aux (sep : list A) (skip : nat) (cur s : list A)
  : list (list A) :=
  match s with
  | [] => [rev cur]
  | x :: s' =>
      match skip with
      | S k => split_aux sep k cur s'
      | O =>
          if starts_with sep s
          then rev cur :: split_aux sep (List.length sep - 1) [] s'
          else split_aux sep O (x :: cur) s'
      end
  end.

Definition split (s sep : list A) : list (list A) := split_aux sep O [] s.

(** [sep.join(parts)] *)
Fixpoint join (sep : list A) (parts : list (list A)) : list A :=
  match parts with
  | [] => []
  | [p] => p
  | p :: rest => p ++ sep ++ join sep rest
  end.

Fixpoint seq_eqb (s t : list A) : bool :=
  match s, t with
  | [], [] => true
  | x :: s', y :: t' => eqb x y && seq_eqb s' t'
  | _, _ => false
  end.
End Sequences.

(** ** [bytes] and [str] *)

Definition bytes : Type := list byte.

(** A [str] is a sequence of Unicode code points. *)
Definition str : Type := list N.

Definition str_eqb : str -> str -> bool := seq_eqb N.eqb.

(** An ASCII literal as a [str] and as [bytes]. *)
Definition str_of (s : string) : str := map Byte.to_N (list_byte_of_string s).
Definition bytes_of (s : string) : bytes := list_byte_of_string s.

(** [c.isspace()]: the code points Python treats as whitespace. *)
Definition isspace (c : N) : bool :=
  (((9 <=? c) && (c <=? 13)) || ((28 <=? c) && (c <=? 32))
   || (c =? 133) || (c =? 160) || (c =? 5760)
   || ((8192 <=? c) && (c <=? 8202))
   || (c =? 8232) || (c =? 8233) || (c =? 8239) || (c =? 8287)
   || (c =? 12288))%N.

(** [s.lstrip()] *)
Fixpoint lstrip (s : str) : str :=
  match s with
  | [] => []
  | c :: s' => if isspace c then lstrip s' else s
  end.

(** [s.rstrip()] *)
Definition rstrip (s : str) : str := rev (lstrip (rev s)).

(** ** UTF-8, the default codec of [bytes.decode()] and [str.encode()] *)

Definition is_cont (b : byte) : bool :=
  let n := Byte.to_N b in ((128 <=? n) && (n <=? 191))%N.

Definition cont_bits (b : byte) : N := (Byte.to_N b - 128)%N.

(** Strict decoding: overlong forms, surrogates and code points above
    U+10FFFF are rejected. *)
Fixpoint utf8_decode (bs : bytes) : option str :=
  match bs with
  | [] => Some []
  | b0 :: t0 =>
      let n0 := Byte.to_N b0 in
      if (n0 <? 128)%N then option_map (cons n0) (utf8_decode t0)
      else if ((194 <=? n0) && (n0 <=? 223))%N then
        match t0 with
        | b1 :: t1 =>
            if is_cont b1
            then option_map (cons ((n0 - 192) * 64 + cont_bits b1)%N)
                            (utf8_decode t1)
            else None
        | _ => None
        end
      else if ((224 <=? n0) && (n0 <=? 239))%N then
        match t0 with
        | b1 :: b2 :: t2 =>
            let c := ((n0 - 224) * 4096 + cont_bits b1 * 64 + cont_bits b2)%N in
            if is_cont b1 && is_cont b2 && (2048 <=? c)%N
               && negb ((55296 <=? c) && (c <=? 57343))%N
            then option_map (cons c) (utf8_decode t2)
            else None
        | _ => None
        end
      else if ((240 <=? n0) && (n0 <=? 244))%N then
        match t0 with
        | b1 :: b2 :: b3 :: t3 =>
            let c := ((n0 - 240) * 262144 + cont_bits b1 * 4096
                      + cont_bits b2 * 64 + cont_bits b3)%N in
            if is_cont b1 && is_cont b2 && is_cont b3
               && (65536 <=? c)%N && (c <=? 1114111)%N
            then option_map (cons c) (utf8_decode t3)
            else None
        | _ => None
        end
      else None
  end.

(** [b.decode()] *)
Definition bytes_decode (bs : bytes) : result str :=
  match utf8_decode bs with
  | Some s => Ok s
  | None => Raise UnicodeDecodeError
  end.

Definition byte_of (n : N) : byte :=
  match Byte.of_N n with
  | Some b => b
  | None => x00
  end.

Definition utf8_encode_char (c : N) : option bytes :=
  if (c <? 128)%N then Some [byte_of c]
  else if (c <? 2048)%N then
    Some [byte_of (192 + c / 64); byte_of (128 + c mod 64)]%N
  else if ((55296 <=? c) && (c <=? 57343))%N then None
  else if (c <? 65536)%N then
    Some [byte_of (224 + c / 4096); byte_of (128 + (c / 64) mod 64);
          byte_of (128 + c mod 64)]%N
  else if (c <=? 1114111)%N then
    Some [byte_of (240 + c / 262144); byte_of (128 + (c / 4096) mod 64);
          byte_of (128 + (c / 64) mod 64); byte_of (128 + c mod 64)]%N
  else None.

Fixpoint utf8_encode (s : str) : option bytes :=
  match s with
  | [] => Some []
  | c :: s' =>
      match utf8_encode_char c, utf8_encode s' with
      | Some bs, Some rest => Some (bs ++ rest)
      | _, _ => None
      end
  end.

(** [s.encode()] *)
Definition str_encode (s : str) : result bytes :=
  match utf8_encode s with
  | Some bs => Ok bs
  | None => Raise UnicodeEncodeError
  end.

(** [template.format(arg0)] for templates made of literal text and the
    replacement field [{0}] (code points 123, 48, 125). *)
Fixpoint format0 (template arg0 : str) : str :=
  match template with
  | [] => []
  | c0 :: t0 =>
      match t0 with
      | c1 :: c2 :: t2 =>
          if ((c0 =? 123) && (c1 =? 48) && (c2 =? 125))%N
          then arg0 ++ format0 t2 arg0
          else c0 :: format0 t0 arg0
      | _ => c0 :: format0 t0 arg0
      end
  end.

(** ** An insertion-ordered [dict] from [str] to lists of [str] *)

Definition dict : Type := list (str * list str).

(** [key in d] *)
Fixpoint dict_contains (key : str) (d : dict) : bool :=
  match d with
  | [] => false
  | (k, _) :: d' => str_eqb k key || dict_contains key d'
  end.

(** [d[key] = vs]: overwrite in place, or add at the end. *)
Fixpoint dict_setitem (key : str) (vs : list str) (d : dict) : dict :=
  match d with
  | [] => [(key, vs)]
  | (k, old) :: d' =>
      if str_eqb k key then (k, vs) :: d'
      else (k, old) :: dict_setitem key vs d'
  end.

(** [d[key].append(v)] for a key that is present. *)
Fixpoint dict_append (key : str) (v : str) (d : dict) : dict :=
  match d with
  | [] => []
  | (k, old) :: d' =>
      if str_eqb k key then (k, old ++ [v]) :: d'
      else (k, old) :: dict_append key v d'
  end.

(** [d[key]] ([None] stands for [KeyError]). *)
Fixpoint dict_get (key : str) (d : dict) : option (list str) :=
  match d with
  | [] => None
  | (k, vs) :: d' => if str_eqb k key then Some vs else dict_get key d'
  end.

End Py.

Import Py.

(* ================================================================== *)
(** * Module constants (lines 8-10) *)
(* ================================================================== *)

(** [LINE_DELIMITER = b'\r\n'] *)
Definition LINE_DELIMITER : bytes := [x0d; x0a].

(** ['{0}{0}WARC/1.0{0}'.format(LINE_DELIMITER.decode()).encode()] *)
Definition BLOCK_DELIMITER_expr : result bytes :=
  nl <- bytes_decode LINE_DELIMITER ;;
  str_encode (format0 (str_of "{0}{0}WARC/1.0{0}") nl).

Definition BLOCK_DELIMITER : bytes :=
  match BLOCK_DELIMITER_expr with
  | Ok b => b
  | Raise _ => []
  end.

(* ================================================================== *)
(** * class WetEntry (lines 26-82) *)
(* ================================================================== *)

(** The value of [chardet.detect(body_block)]. *)
Record detection : Type := {
  encoding : option string;
  confidence : float
}.

Record WetEntry : Type := {
  _header : dict;
  _body : str;
  _encoding : option string
}.

Section Decoder.
(** [chardet.detect] *)
Variable chardet_detect : bytes -> detection.
(** The codec registry behind [bytes.decode(name)]: an unknown name
    raises [LookupError], invalid input raises [UnicodeDecodeError]. *)
Variable codec_decode : string -> bytes -> result str.
(** [str.lower] *)
Variable str_lower : str -> str.

(** [body_block.decode(enc)]; a [None] argument is a [TypeError]. *)
Definition decode_with (body_block : bytes) (enc : option string)
  : result str :=
  match enc with
  | None => Raise TypeError
  | Some name => codec_decode name body_block
  end.

(** Lines 54-58: the list [kv] built from one decoded line. *)
Definition key_value (l : str) : list str :=
  let kv := map (fun e => rstrip (lstrip e)) (split N.eqb l (str_of ":")) in
  if len kv =? 1 then kv ++ [[]]
  else if 2 <? len kv
       then [nth 0 kv []; join (str_of ":") (slice_from kv 1)]
       else kv.

(** Lines 50-65: the body of the [for] loop of [_parse_header]. *)
Definition header_line (headerkey_case_sensitive : bool)
           (header_dict : dict) (l : bytes) : result dict :=
  l <- bytes_decode l ;;
  if len l =? 0 then Ok header_dict
  else
    let kv := key_value l in
    if negb (len kv =? 2) then Raise AssertionError
    else
      let key := if headerkey_case_sensitive then nth 0 kv []
                 else str_lower (nth 0 kv []) in
      let value := nth 1 kv [] in
      let header_dict :=
        if negb (dict_contains key header_dict)
        then dict_setitem key [] header_dict
        else header_dict in
      Ok (dict_append key value header_dict).

Fixpoint header_lines (headerkey_case_sensitive : bool)
         (header_dict : dict) (lines : list bytes) : result dict :=
  match lines with
  | [] => Ok header_dict
  | l :: rest =>
      d <- header_line headerkey_case_sensitive header_dict l ;;
      header_lines headerkey_case_sensitive d rest
  end.

(** Lines 46-67. *)
Definition _parse_header (header_block : bytes)
           (headerkey_case_sensitive : bool) : result dict :=
  header_lines headerkey_case_sensitive []
               (split Byte.eqb header_block LINE_DELIMITER).

(** Lines 69-82.  The result pairs the decoded text with the value
    assigned to [self._encoding]. *)
Definition _parse_body (body_block : bytes)
  : result (str * option string) :=
  let detection := chardet_detect body_block in
  if PrimFloat.ltb (confidence detection) 0.5%float
  then Raise (EncodingDetectionError (encoding detection))
  else
    let enc := encoding detection in
    match decode_with body_block enc with
    | Ok text => Ok (text, enc)
    | Raise _ => Raise (DecodingFailureError enc (slice_to body_block 20))
    end.

Definition header_tail_index (block : bytes) : Z :=
  find Byte.eqb block (repeat_seq 2 LINE_DELIMITER) + len LINE_DELIMITER.

Definition body_head_index (block : bytes) : Z :=
  header_tail_index block + len LINE_DELIMITER.

(** Lines 27-33: [WetEntry(block, headerkey_case_sensitive)]. *)
Definition WetEntry_init (block : bytes) (headerkey_case_sensitive : bool)
  : result WetEntry :=
  h <- _parse_header (slice_to block (header_tail_index block))
                     headerkey_case_sensitive ;;
  b <- _parse_body (slice_from block (body_head_index block)) ;;
  Ok {| _header := h; _body := fst b; _encoding := snd b |}.
End Decoder.

(* ================================================================== *)
(** * class Parser (lines 84-133) *)
(* ================================================================== *)

Record Parser : Type := {
  _loaded_counter : Z;
  _skip_counter : Z
}.

(** Lines 85-87. *)
Definition Parser_init : Parser :=
  {| _loaded_counter := 0; _skip_counter := 0 |}.

(** How control leaves a loop: on to the next statement with the buffer
    [buf], or out of [parse] with an exception. *)
Inductive flow (St : Type) : Type :=
| Next (st : St) (buf : bytes)
| Abort (st : St) (e : exn).
Arguments Next {St} st buf.
Arguments Abort {St} st e.

(** [f.read(size)] on a stream of which [f] is still unread: the chunk
    and what remains. *)
Definition read (size : Z) (f : bytes) : bytes * bytes :=
  if size <? 0 then (f, [])
  else (firstn (Z.to_nat size) f, skipn (Z.to_nat size) f).

(** [iter(lambda : f.read(size), b'')]: the chunks read before the first
    empty one. *)
Fixpoint iter_read_fuel (fuel : nat) (size : Z) (f : bytes) : list bytes :=
  match fuel with
  | O => []
  | S fuel' =>
      let (chunk, f') := read size f in
      match chunk with
      | [] => []
      | _ :: _ => chunk :: iter_read_fuel fuel' size f'
      end
  end.

Definition iter_read (size : Z) (f : bytes) : list bytes :=
  iter_read_fuel (S (List.length f)) size f.

(** The loops of [parse], with the [try] statement around the record
    abstracted as [handle]: it receives the raw block and returns the new
    state, and the exception that leaves the [try] statement, if any. *)
Section Loops.
Context {St : Type} (handle : bytes -> St -> St * option exn).

(** Lines 106-121, [while not need_next_read].  Every round that cuts
    a record shortens [buf], so [List.length buf] rounds are enough
    (lemma [while_loop_enough]). *)
Fixpoint while_loop (fuel : nat) (st : St) (buf : bytes) : flow St :=
  let index := find Byte.eqb buf BLOCK_DELIMITER in
  if index =? -1 then Next st buf
  else
    match fuel with
    | O => Next st buf
    | S fuel' =>
        let (st', raised) :=
          handle (slice_to buf (index + len LINE_DELIMITER)) st in
        let buf' := slice_from buf (index + 2 * len LINE_DELIMITER) in
        match raised with
        | Some e => Abort st' e
        | None => while_loop fuel' st' buf'
        end
    end.

Definition inner_loop (st : St) (buf : bytes) : flow St :=
  while_loop (List.length buf) st buf.

(** Lines 103-121, [for chunk in iter(...)]. *)
Fixpoint for_chunks (chunks : list bytes) (st : St) (buf : bytes)
  : flow St :=
  match chunks with
  | [] => Next st buf
  | chunk :: rest =>
      match inner_loop st (buf ++ chunk) with
      | Next st' buf' => for_chunks rest st' buf'
      | Abort st' e => Abort st' e
      end
  end.

(** Lines 102-133: the read loop from an empty buffer, then the final
    flush. *)
Definition drive (chunks : list bytes) (st : St) : St * option exn :=
  match for_chunks chunks st [] with
  | Abort st' e => (st', Some e)
  | Next st' buf => if 0 <? len buf then handle buf st' else (st', None)
  end.

(** Handling a list of blocks in order, up to the first exception. *)
Fixpoint feed (blocks : list bytes) (st : St) : St * option exn :=
  match blocks with
  | [] => (st, None)
  | b :: rest =>
      match handle b st with
      | (st', Some e) => (st', Some e)
      | (st', None) => feed rest st'
      end
  end.
End Loops.

(** What a run of the generator has done so far: the counters of the
    instance, the entries yielded to the consumer, the exceptions logged by
    [logging.warn]. *)
Record run : Type := {
  self : Parser;
  yielded : list WetEntry;
  warned : list exn
}.

Definition is_record_error (e : exn) : bool :=
  match e with
  | EncodingDetectionError _ | DecodingFailureError _ _ => true
  | _ => false
  end.

(** Lines 115-116: one more entry handed to the consumer and counted. *)
Definition entry_loaded (entry : WetEntry) (r : run) : run :=
  {| self := {| _loaded_counter := _loaded_counter (self r) + 1;
                _skip_counter := _skip_counter (self r) |};
     yielded := yielded r ++ [entry];
     warned := warned r |}.

(** Lines 118-119: the error logged and the record counted as skipped. *)
Definition entry_skipped (e : exn) (r : run) : run :=
  {| self := {| _loaded_counter := _loaded_counter (self r);
                _skip_counter := _skip_counter (self r) + 1 |};
     yielded := yielded r;
     warned := warned r ++ [e] |}.

(** Lines 97-98 and 102: the state in which the loops start. *)
Definition fresh_run : run :=
  {| self := {| _loaded_counter := 0; _skip_counter := 0 |};
     yielded := [];
     warned := [] |}.

Section Parse.
Variable chardet_detect : bytes -> detection.
Variable codec_decode : string -> bytes -> result str.
Variable str_lower : str -> str.

(** Lines 112-119 and 124-131: the [try] statement, the generator being
    driven by a consumer that asks for every entry. *)
Definition try_entry (headerkey_case_sensitive : bool) (block : bytes)
           (r : run) : run * option exn :=
  match WetEntry_init chardet_detect codec_decode str_lower block
                      headerkey_case_sensitive with
  | Ok entry => (entry_loaded entry r, None)
  | Raise e =>
      if is_record_error e then (entry_skipped e r, None) else (r, Some e)
  end.

(** Lines 96-133 with the chunk size as a parameter; [f] is the
    decompressed content of the file.  The counters of [p] are
    overwritten before anything is read. *)
Definition parse_with (buffering_size : Z) (p : Parser) (f : bytes)
           (headerkey_case_sensitive : bool) : run * option exn :=
  let p := {| _loaded_counter := 0; _skip_counter := 0 |} in
  drive (try_entry headerkey_case_sensitive)
        (iter_read buffering_size f)
        {| self := p; yielded := []; warned := [] |}.

(** [Parser.parse]: [buffering_size = 1024*4]. *)
Definition parse (p : Parser) (f : bytes) (headerkey_case_sensitive : bool)
  : run * option exn :=
  parse_with (1024 * 4) p f headerkey_case_sensitive.
End Parse.

(** The raw blocks the loops of [parse] cut from the chunks: the loops run
    with a handler that only records its argument. *)
Definition record_block (block : bytes) (seen : list bytes)
  : list bytes * option exn :=
  (seen ++ [block], None).

Definition raw_blocks (chunks : list bytes) : list bytes :=
  fst (drive record_block chunks []).

Definition raw_records (buffering_size : Z) (f : bytes) : list bytes :=
  raw_blocks (iter_read buffering_size f).

(* ================================================================== *)
(** * The report of the [__main__] block (lines 146-157) *)
(* ================================================================== *)

(** [float(z)]: rounding to the nearest binary64; [OverflowError] beyond
    the finite range. *)
Definition int_to_float (z : Z) : result float :=
  let x := SF2Prim (binary_normalize prec emax z 0 false) in
  if PrimFloat.is_infinity x then Raise OverflowError else Ok x.

(** [a / b] on floats. *)
Definition float_truediv (a b : float) : result float :=
  if PrimFloat.eqb b PrimFloat.zero then Raise ZeroDivisionError
  else Ok (PrimFloat.div a b).

(** Line 157:
    [float(parser.skip_counter)/(parser.loaded_counter+parser.skip_counter)] *)
Definition skip_ratio (p : Parser) : result float :=
  num <- int_to_float (_skip_counter p) ;;
  den <- int_to_float (_loaded_counter p + _skip_counter p) ;;
  float_truediv num den.

Section Main.
Variable chardet_detect : bytes -> detection.
Variable codec_decode : string -> bytes -> result str.
Variable str_lower : str -> str.

(** Lines 146-157 on a file whose decompressed content is [f]: the
    entries written, the counters and the ratio of the last log line. *)
Definition main (f : bytes) : result (list WetEntry * Parser * float) :=
  let parser := Parser_init in
  let (r, raised) := parse chardet_detect codec_decode str_lower
                           parser f true in
  match raised with
  | Some e => Raise e
  | None =>
      ratio <- skip_ratio (self r) ;;
      Ok (yielded r, self r, ratio)
  end.
End Main.

(* ================================================================== *)
(** * Vocabulary of the statements *)
(* ================================================================== *)

(** The number of offsets of [s] at which [pat] occurs. *)
Fixpoint count_occurrences (pat s : bytes) : nat :=
  ((if starts_with Byte.eqb pat s then 1 else 0)
   + match s with
     | [] => 0
     | _ :: s' => count_occurrences pat s'
     end)%nat.

(** [record_1 + MARKER + record_2 + ... + MARKER + record_n] *)
Definition stream_of (MARKER : bytes) (records : list bytes) : bytes :=
  join MARKER records.

(** A block without one trailing line delimiter, when it ends with one. *)
Definition strip_line_delimiter (block : bytes) : bytes :=
  let n := List.length block in
  if starts_with Byte.eqb LINE_DELIMITER (skipn (n - 2) block)
  then firstn (n - 2) block
  else block.

(** What follows the two line delimiters inside the block delimiter. *)
Definition VERSION_LINE : bytes := bytes_of "WARC/1.0" ++ LINE_DELIMITER.

(** The blocks cut from [first + MARKER + r_2 + ... + MARKER + r_n] when the
    marker occurs at the joins only: every block but the last ends with
    one line delimiter, every block but the first starts with the version
    line, and an empty stream gives no block. *)
Fixpoint blocks_of (first : bytes) (rest : list bytes) : list bytes :=
  match rest with
  | [] => match first with
          | [] => []
          | _ :: _ => [first]
          end
  | r :: rest' =>
      (first ++ LINE_DELIMITER) :: blocks_of (VERSION_LINE ++ r) rest'
  end.

(** The counters agree with what the run has yielded and logged. *)
Definition counters_match (r : run) : Prop :=
  _loaded_counter (self r) = len (yielded r)
  /\ _skip_counter (self r) = len (warned r).

(** The binary64 value of the literal [0.49]. *)
Definition float_0_49 : float := 0x1.f5c28f5c28f5cp-2%float.

(** ** Vocabulary for the header *)

(** [e.lstrip().rstrip()] (line 54). *)
Definition strip (e : str) : str := rstrip (lstrip e).

(** Lines 61-62: the key and the value taken from a decoded line. *)
Definition line_key (str_lower : str -> str)
           (headerkey_case_sensitive : bool) (l : str) : str :=
  if headerkey_case_sensitive then nth 0 (key_value l) []
  else str_lower (nth 0 (key_value l) []).

Definition line_value (l : str) : str := nth 1 (key_value l) [].

(** Lines 63-65: one more value under a key. *)
Definition dict_add (key value : str) (d : dict) : dict :=
  dict_append key value
    (if negb (dict_contains key d) then dict_setitem key [] d else d).

(** The lines of a header block that are valid UTF-8, decoded. *)
Definition decoded_lines (header_block : bytes) : list str :=
  flat_map (fun line => match utf8_decode line with
                        | Some l => [l]
                        | None => []
                        end)
           (split Byte.eqb header_block LINE_DELIMITER).

(** The values of the lines, empty lines apart, whose key is [key], in
    the order of the lines. *)
Fixpoint values_of (str_lower : str -> str) (headerkey_case_sensitive : bool)
         (key : str) (lines : list str) : list str :=
  match lines with
  | [] => []
  | l :: rest =>
      if negb (len l =? 0)
         && str_eqb (line_key str_lower headerkey_case_sensitive l) key
      then line_value l
             :: values_of str_lower headerkey_case_sensitive key rest
      else values_of str_lower headerkey_case_sensitive key rest
  end.

(** The number of values held by a header. *)
Definition total_values (d : dict) : nat :=
  list_sum (map (fun kv => List.length (snd kv)) d).

(** Bytes below 128 only. *)
Definition is_ascii (bs : bytes) : bool :=
  forallb (fun b => (Byte.to_N b <? 128)%N) bs.

(** The first character, if any, is not whitespace. *)
Definition starts_clean (s : str) : bool :=
  match s with
  | [] => true
  | c :: _ => negb (isspace c)
  end.

(** Lines 50-65 on a decoded line: what the loop does to the header. *)
Definition header_step (str_lower : str -> str)
           (headerkey_case_sensitive : bool) (d : dict) (l : str) : dict :=
  if len l =? 0 then d
  else dict_add (line_key str_lower headerkey_case_sensitive l)
                (line_value l) d.

(** Stripping changes nothing. *)
Definition trimmed (s : str) : Prop := lstrip s = s /\ rstrip s = s.

(** What the blocks of a run give, block by block: the entries of the
    blocks that [WetEntry] accepts, and the exceptions of the others. *)
Section Outcomes.
Variable chardet_detect : bytes -> detection.
Variable codec_decode : string -> bytes -> result str.
Variable str_lower : str -> str.

Definition entries_of (headerkey_case_sensitive : bool)
           (blocks : list bytes) : list WetEntry :=
  flat_map (fun block =>
              match WetEntry_init chardet_detect codec_decode str_lower
                                  block headerkey_case_sensitive with
              | Ok entry => [entry]
              | Raise _ => []
              end) blocks.

Definition errors_of (headerkey_case_sensitive : bool)
           (blocks : list bytes) : list exn :=
  flat_map (fun block =>
              match WetEntry_init chardet_detect codec_decode str_lower
                                  block headerkey_case_sensitive with
              | Ok _ => []
              | Raise e => [e]
              end) blocks.
End Outcomes.

(** Small collaborators used to run the parser on concrete inputs. *)
Module Demo.

(** A detector keyed on the first byte of the body: ['?'] is a guess
    below the threshold, ['!'] a confident answer without a name, ['~']
    a confident answer naming a codec that does not exist. *)
Definition detect (body : bytes) : detection :=
  match body with
  | [] => {| encoding := None; confidence := 0%float |}
  | b :: _ =>
      if Byte.eqb b "?"%byte
      then {| encoding := Some "windows-1252"%string;
              confidence := float_0_49 |}
      else if Byte.eqb b "!"%byte
      then {| encoding := None; confidence := 0.5%float |}
      else if Byte.eqb b "~"%byte
      then {| encoding := Some "no-such-codec"%string;
              confidence := 1%float |}
      else {| encoding := Some "ascii"%string; confidence := 1%float |}
  end.

(** A registry that knows ["ascii"] only. *)
Definition decode (name : string) (body : bytes) : result str :=
  if String.eqb name "ascii"
  then if forallb (fun b => (Byte.to_N b <? 128)%N) body
       then Ok (map Byte.to_N body)
       else Raise UnicodeDecodeError
  else Raise LookupError.

(** Lower-casing of the ASCII letters. *)
Definition lower (s : str) : str :=
  map (fun c => if ((65 <=? c) && (c <=? 90))%N then (c + 32)%N else c) s.

Definition crlf : bytes := LINE_DELIMITER.

(** Three records; the body of the second starts with ['?']. *)
Definition three_records : bytes :=
  bytes_of "WARC/1.0" ++ crlf ++ bytes_of "A: 1" ++ crlf ++ crlf
    ++ bytes_of "one" ++ BLOCK_DELIMITER
    ++ bytes_of "B: 2" ++ crlf ++ crlf ++ bytes_of "?two" ++ BLOCK_DELIMITER
    ++ bytes_of "C: 3" ++ crlf ++ crlf ++ bytes_of "three".
(** A buffer holding one complete record, whose body starts with ['?'],
    and the beginning of the next one. *)
Definition doubtful_then_more : bytes :=
  bytes_of "A: 1" ++ crlf ++ crlf ++ bytes_of "?x" ++ BLOCK_DELIMITER
    ++ bytes_of "B: 2" ++ crlf ++ crlf ++ bytes_of "ok".
End Demo.

(* ================================================================== *)
(** * Facts about the built-ins *)
(* ================================================================== *)

Section SearchFacts.
Local Abbreviation sw := (starts_with Byte.eqb).
Local Abbreviation fnd := (find_nat Byte.eqb).
Local Open Scope nat_scope.

Lemma starts_with_iff (pat s : bytes) :
  sw pat s = true <-> exists t, s = pat ++ t.
Proof.
  revert s; induction pat as [|p pat IH]; intros s; simpl.
  - split; [intros _; now exists s | reflexivity].
  - destruct s as [|x s].
    + split; [discriminate | intros [t Ht]; discriminate].
    + rewrite andb_true_iff, IH. split.
      * intros [Hpx [t ->]]. apply byte_dec_bl in Hpx. subst. now exists t.
      * intros [t Ht]. injection Ht as -> ->.
        split; [now apply byte_dec_lb | now exists t].
Qed.

Lemma starts_with_length (pat s : bytes) :
  sw pat s = true -> List.length pat <= List.length s.
Proof.
  intros H. apply starts_with_iff in H as [t ->].
  rewrite length_app. lia.
Qed.

Lemma starts_with_app (pat s y : bytes) :
  List.length pat <= List.length s -> sw pat (s ++ y) = sw pat s.
Proof.
  revert s; induction pat as [|p pat IH]; intros s Hlen; simpl.
  - reflexivity.
  - destruct s as [|x s]; simpl in *; [lia|].
    rewrite IH by lia. reflexivity.
Qed.

Lemma starts_with_self (pat t : bytes) : sw pat (pat ++ t) = true.
Proof. apply starts_with_iff. now exists t. Qed.

Lemma find_nat_bound (pat s : bytes) i :
  fnd pat s = Some i -> i + List.length pat <= List.length s.
Proof.
  revert i; induction s as [|x s IH]; intros i; simpl.
  - destruct (sw pat []) eqn:E; [|discriminate].
    intros [= <-]. apply starts_with_length in E. simpl in *. lia.
  - destruct (sw pat (x :: s)) eqn:E.
    + intros [= <-]. apply starts_with_length in E. simpl in *. lia.
    + destruct (fnd pat s) as [k|] eqn:F; simpl; [|discriminate].
      intros [= <-]. specialize (IH k eq_refl). lia.
Qed.

Lemma find_nat_occurs (pat s : bytes) i :
  fnd pat s = Some i -> sw pat (skipn i s) = true.
Proof.
  revert i; induction s as [|x s IH]; intros i; simpl.
  - destruct (sw pat []) eqn:E; [|discriminate]. now intros [= <-].
  - destruct (sw pat (x :: s)) eqn:E.
    + now intros [= <-].
    + destruct (fnd pat s) as [k|] eqn:F; simpl; [|discriminate].
      intros [= <-]. simpl. now apply IH.
Qed.

Lemma find_nat_first (pat s : bytes) i j :
  fnd pat s = Some i -> j < i -> sw pat (skipn j s) = false.
Proof.
  revert i j; induction s as [|x s IH]; intros i j; simpl.
  - destruct (sw pat []) eqn:E; [|discriminate]. intros [= <-]. lia.
  - destruct (sw pat (x :: s)) eqn:E.
    + intros [= <-]. lia.
    + destruct (fnd pat s) as [k|] eqn:F; simpl; [|discriminate].
      intros [= <-] Hj. destruct j as [|j]; simpl; [exact E|].
      apply (IH k); [reflexivity | lia].
Qed.

Lemma find_nat_None (pat s : bytes) j :
  fnd pat s = None -> sw pat (skipn j s) = false.
Proof.
  revert j; induction s as [|x s IH]; intros j; simpl.
  - destruct (sw pat []) eqn:E; [discriminate|]. intros _.
    now destruct j.
  - destruct (sw pat (x :: s)) eqn:E; [discriminate|].
    destruct (fnd pat s) as [k|] eqn:F; simpl; [discriminate|].
    intros _. destruct j as [|j]; simpl; [exact E | now apply IH].
Qed.

Lemma find_nat_least (pat s : bytes) j :
  sw pat (skipn j s) = true -> j <= List.length s ->
  exists i, fnd pat s = Some i /\ i <= j.
Proof.
  revert j; induction s as [|x s IH]; intros j Hocc Hj; simpl in *.
  - assert (j = 0) by lia. subst. simpl in Hocc. rewrite Hocc.
    exists 0. split; [reflexivity | lia].
  - destruct (sw pat (x :: s)) eqn:E.
    + exists 0. split; [reflexivity | lia].
    + destruct j as [|j]; simpl in Hocc; [congruence|].
      destruct (IH j Hocc ltac:(lia)) as [i [Hi Hij]].
      rewrite Hi. simpl. exists (S i). split; [reflexivity | lia].
Qed.

Lemma find_nat_app (pat s y : bytes) i :
  fnd pat s = Some i -> fnd pat (s ++ y) = Some i.
Proof.
  revert i; induction s as [|x s IH]; intros i; simpl.
  - destruct (sw pat []) eqn:E; [|discriminate]. intros [= <-].
    destruct pat; [|discriminate]. now destruct y.
  - destruct (sw pat (x :: s)) eqn:E.
    + intros [= <-].
      change (x :: s ++ y) with ((x :: s) ++ y).
      rewrite starts_with_app, E; [reflexivity|].
      now apply starts_with_length.
    + destruct (fnd pat s) as [k|] eqn:F; simpl; [|discriminate].
      intros [= <-].
      change (x :: s ++ y) with ((x :: s) ++ y).
      rewrite starts_with_app, E.
      * now rewrite (IH k eq_refl).
      * apply find_nat_bound in F. simpl. lia.
Qed.

(** [find] in terms of [find_nat]. *)
Lemma find_found (s pat : bytes) i :
  fnd pat s = Some i -> find Byte.eqb s pat = Z.of_nat i.
Proof. unfold find. now intros ->. Qed.

Lemma find_missing (s pat : bytes) :
  fnd pat s = None -> find Byte.eqb s pat = (-1)%Z.
Proof. unfold find. now intros ->. Qed.

Lemma find_cases (s pat : bytes) :
  (fnd pat s = None /\ find Byte.eqb s pat = (-1)%Z)
  \/ (exists i, fnd pat s = Some i /\ find Byte.eqb s pat = Z.of_nat i).
Proof.
  unfold find. destruct (fnd pat s) as [i|]; [right; now exists i | now left].
Qed.

(** Slices at a bound that is not negative. *)
Lemma slice_to_nat (s : bytes) (n : nat) :
  slice_to s (Z.of_nat n) = firstn n s.
Proof.
  unfold slice_to, bound.
  destruct (Z.ltb_spec (Z.of_nat n) 0); [lia|]. now rewrite Nat2Z.id.
Qed.

Lemma slice_from_nat (s : bytes) (n : nat) :
  slice_from s (Z.of_nat n) = skipn n s.
Proof.
  unfold slice_from, bound.
  destruct (Z.ltb_spec (Z.of_nat n) 0); [lia|]. now rewrite Nat2Z.id.
Qed.
End SearchFacts.

(** ** The built-ins on small inputs *)

Example split_keeps_empty_pieces :
  split Byte.eqb
        (bytes_of "a" ++ LINE_DELIMITER ++ LINE_DELIMITER ++ bytes_of "b"
           ++ LINE_DELIMITER)
        LINE_DELIMITER
  = [bytes_of "a"; []; bytes_of "b"; []].
Proof. reflexivity. Qed.

Example split_without_separator :
  split N.eqb (str_of "Bare-Key") (str_of ":") = [str_of "Bare-Key"].
Proof. reflexivity. Qed.

Example strip_both_ends :
  rstrip (lstrip (str_of "  a b  ")) = str_of "a b".
Proof. reflexivity. Qed.

Example find_first_of_two :
  find Byte.eqb (bytes_of "abcabc") (bytes_of "bc") = 1
  /\ find Byte.eqb (bytes_of "abcabc") (bytes_of "cb") = -1.
Proof. split; reflexivity. Qed.

Example slice_negative_bound :
  slice_to (bytes_of "abcdef") (-2) = bytes_of "abcd"
  /\ slice_from (bytes_of "abcdef") (-2) = bytes_of "ef"
  /\ slice_to (bytes_of "abc") 20 = bytes_of "abc".
Proof. repeat split; reflexivity. Qed.

Example utf8_decode_cases :
  utf8_decode [xe2; x82; xac] = Some [8364%N]
  /\ utf8_decode [xf0; x9f; x98; x80] = Some [128512%N]
  /\ utf8_decode [xc0; x80] = None
  /\ utf8_decode [xed; xa0; x80] = None
  /\ utf8_decode [xff] = None.
Proof. repeat split; vm_compute; reflexivity. Qed.

Example utf8_encode_decode :
  utf8_encode [97%N; 233%N; 8364%N; 128512%N]
  = Some [x61; xc3; xa9; xe2; x82; xac; xf0; x9f; x98; x80]
  /\ utf8_decode [x61; xc3; xa9; xe2; x82; xac; xf0; x9f; x98; x80]
     = Some [97%N; 233%N; 8364%N; 128512%N].
Proof. split; vm_compute; reflexivity. Qed.

(* ================================================================== *)
(** * Facts about the loops of [parse] *)
(* ================================================================== *)

Lemma BLOCK_DELIMITER_bytes :
  BLOCK_DELIMITER =
  [x0d; x0a; x0d; x0a; x57; x41; x52; x43; x2f; x31; x2e; x30; x0d; x0a].
Proof. vm_compute. reflexivity. Qed.

Lemma BLOCK_DELIMITER_length : List.length BLOCK_DELIMITER = 14%nat.
Proof. rewrite BLOCK_DELIMITER_bytes. reflexivity. Qed.

Lemma BLOCK_DELIMITER_split :
  BLOCK_DELIMITER = LINE_DELIMITER ++ LINE_DELIMITER ++ VERSION_LINE.
Proof. rewrite BLOCK_DELIMITER_bytes. reflexivity. Qed.

Lemma find_nat_nil : find_nat Byte.eqb BLOCK_DELIMITER [] = None.
Proof. rewrite BLOCK_DELIMITER_bytes. reflexivity. Qed.

(** Induction along the cuts of the inner loop: a buffer without the
    delimiter, or a buffer cut at the first delimiter and the rest. *)
Lemma cut_ind (P : bytes -> Prop) :
  (forall buf, find_nat Byte.eqb BLOCK_DELIMITER buf = None -> P buf) ->
  (forall buf i, find_nat Byte.eqb BLOCK_DELIMITER buf = Some i ->
                 P (skipn (i + 4) buf) -> P buf) ->
  forall buf, P buf.
Proof.
  intros Hnone Hsome buf.
  remember (List.length buf) as n eqn:Hn.
  revert buf Hn. induction n as [n IH] using lt_wf_ind. intros buf Hn.
  destruct (find_nat Byte.eqb BLOCK_DELIMITER buf) as [i|] eqn:F.
  - apply (Hsome buf i F).
    apply (IH (List.length (skipn (i + 4) buf))); [|reflexivity].
    apply find_nat_bound in F. rewrite BLOCK_DELIMITER_length in F.
    rewrite length_skipn. lia.
  - now apply Hnone.
Qed.

Section LoopFacts.
Context {St : Type} (handle : bytes -> St -> St * option exn).

Lemma while_loop_unfold fuel (st : St) buf :
  while_loop handle fuel st buf =
  let index := find Byte.eqb buf BLOCK_DELIMITER in
  if index =? -1 then Next st buf
  else
    match fuel with
    | O => Next st buf
    | S fuel' =>
        let (st', raised) :=
          handle (slice_to buf (index + len LINE_DELIMITER)) st in
        let buf' := slice_from buf (index + 2 * len LINE_DELIMITER) in
        match raised with
        | Some e => Abort st' e
        | None => while_loop handle fuel' st' buf'
        end
    end.
Proof. destruct fuel; reflexivity. Qed.

Lemma while_loop_missing fuel (st : St) buf :
  find_nat Byte.eqb BLOCK_DELIMITER buf = None ->
  while_loop handle fuel st buf = Next st buf.
Proof.
  intros F. rewrite while_loop_unfold. cbv zeta.
  now rewrite (find_missing _ _ F).
Qed.

Lemma while_loop_found fuel (st : St) buf i :
  find_nat Byte.eqb BLOCK_DELIMITER buf = Some i ->
  while_loop handle (S fuel) st buf =
  let (st', raised) := handle (firstn (i + 2) buf) st in
  match raised with
  | Some e => Abort st' e
  | None => while_loop handle fuel st' (skipn (i + 4) buf)
  end.
Proof.
  intros F. rewrite while_loop_unfold. cbv zeta.
  rewrite (find_found _ _ _ F).
  destruct (Z.eqb_spec (Z.of_nat i) (-1)); [lia|].
  change (len LINE_DELIMITER) with 2.
  replace (Z.of_nat i + 2) with (Z.of_nat (i + 2)) by lia.
  replace (Z.of_nat i + 2 * 2) with (Z.of_nat (i + 4)) by lia.
  now rewrite slice_to_nat, slice_from_nat.
Qed.

(** The fuel given by [inner_loop] is enough: any larger amount gives the
    same result, so the loop is never stopped by the fuel. *)
Lemma while_loop_enough n m (st : St) buf :
  (List.length buf <= n)%nat -> (List.length buf <= m)%nat ->
  while_loop handle n st buf = while_loop handle m st buf.
Proof.
  revert m st buf. induction n as [|n IH]; intros m st buf Hn Hm.
  - destruct buf; [|simpl in Hn; lia].
    now rewrite !while_loop_missing by apply find_nat_nil.
  - destruct (find_nat Byte.eqb BLOCK_DELIMITER buf) as [i|] eqn:F.
    + pose proof (find_nat_bound _ _ _ F) as B.
      rewrite BLOCK_DELIMITER_length in B.
      destruct m as [|m]; [lia|].
      rewrite !(while_loop_found _ _ _ _ F).
      destruct (handle (firstn (i + 2) buf) st) as [st' [e|]]; [reflexivity|].
      apply IH; rewrite length_skipn; lia.
    + now rewrite !while_loop_missing.
Qed.

Lemma inner_loop_missing (st : St) buf :
  find_nat Byte.eqb BLOCK_DELIMITER buf = None ->
  inner_loop handle st buf = Next st buf.
Proof. apply while_loop_missing. Qed.

Lemma inner_loop_found (st : St) buf i :
  find_nat Byte.eqb BLOCK_DELIMITER buf = Some i ->
  inner_loop handle st buf =
  let (st', raised) := handle (firstn (i + 2) buf) st in
  match raised with
  | Some e => Abort st' e
  | None => inner_loop handle st' (skipn (i + 4) buf)
  end.
Proof.
  intros F. unfold inner_loop.
  pose proof (find_nat_bound _ _ _ F) as B.
  rewrite BLOCK_DELIMITER_length in B.
  destruct (List.length buf) as [|n] eqn:L; [lia|].
  rewrite (while_loop_found _ _ _ _ F).
  destruct (handle (firstn (i + 2) buf) st) as [st' [e|]]; [reflexivity|].
  apply while_loop_enough; rewrite length_skipn; lia.
Qed.

(** The loop is left only when the delimiter is not in the buffer. *)
Lemma inner_loop_exit buf : forall (st st' : St) buf',
  inner_loop handle st buf = Next st' buf' ->
  find_nat Byte.eqb BLOCK_DELIMITER buf' = None.
Proof.
  pattern buf; apply cut_ind; clear buf;
    [intros buf F | intros buf i F IH]; intros st st' buf'.
  - rewrite (inner_loop_missing _ _ F). now intros [= _ <-].
  - rewrite (inner_loop_found _ _ _ F).
    destruct (handle (firstn (i + 2) buf) st) as [st1 [e|]];
      [discriminate | apply IH].
Qed.

(** Reading more bytes never changes the cuts already made. *)
Lemma inner_loop_app x : forall (st : St) y,
  inner_loop handle st (x ++ y) =
  match inner_loop handle st x with
  | Next st' x' => inner_loop handle st' (x' ++ y)
  | Abort st' e => Abort st' e
  end.
Proof.
  pattern x; apply cut_ind; clear x;
    [intros x F | intros x i F IH]; intros st y.
  - now rewrite (inner_loop_missing _ _ F).
  - pose proof (find_nat_bound _ _ _ F) as B.
    rewrite BLOCK_DELIMITER_length in B.
    rewrite (inner_loop_found _ _ _ F).
    rewrite (inner_loop_found _ _ _ (find_nat_app _ _ y _ F)).
    rewrite firstn_app, skipn_app.
    replace (i + 2 - List.length x)%nat with 0%nat by lia.
    replace (i + 4 - List.length x)%nat with 0%nat by lia.
    simpl firstn. simpl skipn. rewrite app_nil_r.
    destruct (handle (firstn (i + 2) x) st) as [st1 [e|]]; [reflexivity|].
    apply IH.
Qed.

(** The read loop depends on the bytes read, not on how they were
    chunked. *)
Lemma for_chunks_concat chunks : forall (st : St) buf,
  find_nat Byte.eqb BLOCK_DELIMITER buf = None ->
  for_chunks handle chunks st buf
  = inner_loop handle st (buf ++ List.concat chunks).
Proof.
  induction chunks as [|c chunks IH]; intros st buf F; simpl.
  - rewrite app_nil_r. now rewrite (inner_loop_missing _ _ F).
  - rewrite app_assoc, (inner_loop_app (buf ++ c)).
    destruct (inner_loop handle st (buf ++ c)) as [st' buf'|st' e] eqn:E;
      [|reflexivity].
    apply IH. exact (inner_loop_exit _ _ _ _ E).
Qed.

Lemma drive_concat chunks (st : St) :
  drive handle chunks st =
  match inner_loop handle st (List.concat chunks) with
  | Abort st' e => (st', Some e)
  | Next st' buf => if 0 <? len buf then handle buf st' else (st', None)
  end.
Proof.
  unfold drive. now rewrite (for_chunks_concat chunks st [] find_nat_nil).
Qed.

Lemma feed_app blocks1 blocks2 (st : St) :
  feed handle (blocks1 ++ blocks2) st =
  match feed handle blocks1 st with
  | (st', Some e) => (st', Some e)
  | (st', None) => feed handle blocks2 st'
  end.
Proof.
  revert st; induction blocks1 as [|b bs IH]; intros st; simpl.
  - reflexivity.
  - destruct (handle b st) as [st' [e|]]; [reflexivity | apply IH].
Qed.
End LoopFacts.

(** ** The chunks returned by the stream *)

Lemma read_nil size : read size [] = ([], []).
Proof.
  unfold read. destruct (size <? 0); [reflexivity|].
  now rewrite firstn_nil, skipn_nil.
Qed.

Lemma iter_read_fuel_nil fuel size : iter_read_fuel fuel size [] = [].
Proof. destruct fuel; simpl; [reflexivity | now rewrite read_nil]. Qed.

Lemma iter_read_fuel_concat fuel size f :
  (List.length f < fuel)%nat -> size <> 0 ->
  List.concat (iter_read_fuel fuel size f) = f.
Proof.
  revert f. induction fuel as [|fuel IH]; intros f Hf Hsize; [lia|].
  destruct f as [|b f]; [now rewrite iter_read_fuel_nil|].
  cbn [iter_read_fuel]. unfold read.
  destruct (Z.ltb_spec size 0) as [Hneg|Hpos].
  - cbn [List.concat]. now rewrite iter_read_fuel_nil, app_nil_r.
  - destruct (Z.to_nat size) as [|n] eqn:Hn; [lia|].
    cbn [firstn skipn List.concat].
    rewrite IH; [| rewrite length_skipn; simpl in Hf; lia | assumption].
    simpl. now rewrite firstn_skipn.
Qed.

Lemma iter_read_concat size f :
  size <> 0 -> List.concat (iter_read size f) = f.
Proof. intros H. apply iter_read_fuel_concat; [lia | assumption]. Qed.

(** Any two chunk sizes give the same run, whatever the handler does. *)
Lemma drive_chunk_size {St : Type} (handle : bytes -> St -> St * option exn)
      size1 size2 f (st : St) :
  size1 <> 0 -> size2 <> 0 ->
  drive handle (iter_read size1 f) st = drive handle (iter_read size2 f) st.
Proof.
  intros H1 H2. now rewrite !drive_concat, !iter_read_concat.
Qed.

(** ** The blocks cut, and what the handler does with them *)

Lemma inner_loop_record_found seen buf i :
  find_nat Byte.eqb BLOCK_DELIMITER buf = Some i ->
  inner_loop record_block seen buf =
  inner_loop record_block (seen ++ [firstn (i + 2) buf]) (skipn (i + 4) buf).
Proof. intros F. now rewrite (inner_loop_found _ _ _ _ F). Qed.

Lemma inner_loop_blocks buf :
  exists blocks buf',
    (forall seen,
        inner_loop record_block seen buf = Next (seen ++ blocks) buf')
    /\ (forall (St : Type) (handle : bytes -> St -> St * option exn) st,
           inner_loop handle st buf =
           match feed handle blocks st with
           | (st', None) => Next st' buf'
           | (st', Some e) => Abort st' e
           end).
Proof.
  pattern buf; apply cut_ind; clear buf.
  - intros buf F. exists [], buf. split.
    + intros seen. now rewrite app_nil_r, (inner_loop_missing _ _ _ F).
    + intros St handle st. now rewrite (inner_loop_missing _ _ _ F).
  - intros buf i F (blocks & buf' & Hrec & Hany).
    exists (firstn (i + 2) buf :: blocks), buf'. split.
    + intros seen. rewrite (inner_loop_record_found _ _ _ F), Hrec.
      now rewrite <- app_assoc.
    + intros St handle st. rewrite (inner_loop_found _ _ _ _ F). simpl.
      destruct (handle (firstn (i + 2) buf) st) as [st1 [e|]];
        [reflexivity | apply Hany].
Qed.

(** [parse] handles the blocks of [raw_blocks] one after the other: what
    happens to a block has no influence on where the next one is cut. *)
Lemma drive_feed {St : Type} (handle : bytes -> St -> St * option exn)
      chunks (st : St) :
  drive handle chunks st = feed handle (raw_blocks chunks) st.
Proof.
  unfold raw_blocks. rewrite !drive_concat.
  destruct (inner_loop_blocks (List.concat chunks))
    as (blocks & buf' & Hrec & Hany).
  rewrite (Hrec []), (Hany St handle st). simpl.
  destruct (0 <? len buf') eqn:E.
  - unfold record_block. simpl. rewrite feed_app. simpl.
    destruct (feed handle blocks st) as [st1 [e|]]; [reflexivity|].
    rewrite E. now destruct (handle buf' st1) as [st2 [e|]].
  - simpl. destruct (feed handle blocks st) as [st1 [e|]]; [reflexivity|].
    now rewrite E.
Qed.

(** ** Streams built from records and the delimiter *)

Arguments BLOCK_DELIMITER : simpl never.

Lemma join_two (sep p q : bytes) rest :
  join sep (p :: q :: rest) = p ++ sep ++ join sep (q :: rest).
Proof. reflexivity. Qed.

Lemma join_head_app (sep a p : bytes) rest :
  join sep ((a ++ p) :: rest) = a ++ join sep (p :: rest).
Proof.
  destruct rest as [|q rest]; [reflexivity|].
  now rewrite !join_two, <- app_assoc.
Qed.

Lemma count_app_ge pat x y :
  (count_occurrences pat y <= count_occurrences pat (x ++ y))%nat.
Proof. induction x as [|b x IH]; simpl; lia. Qed.

Lemma count_occurs pat b s :
  starts_with Byte.eqb pat (b :: s) = true ->
  count_occurrences pat (b :: s) = S (count_occurrences pat s).
Proof. intros H. cbn [count_occurrences]. now rewrite H. Qed.

Lemma count_zero_missing pat s :
  count_occurrences pat s = 0%nat -> find_nat Byte.eqb pat s = None.
Proof.
  induction s as [|b s IH]; cbn [count_occurrences find_nat].
  - destruct (starts_with Byte.eqb pat []); [discriminate | reflexivity].
  - destruct (starts_with Byte.eqb pat (b :: s)); [discriminate|].
    intros H. now rewrite IH.
Qed.

Lemma delimiter_app_shape t :
  BLOCK_DELIMITER ++ t = x0d :: [x0a; x0d; x0a] ++ (VERSION_LINE ++ t).
Proof. rewrite BLOCK_DELIMITER_bytes. reflexivity. Qed.

Lemma count_delimiter_app t :
  (S (count_occurrences BLOCK_DELIMITER (VERSION_LINE ++ t))
   <= count_occurrences BLOCK_DELIMITER (BLOCK_DELIMITER ++ t))%nat.
Proof.
  pose proof (starts_with_self BLOCK_DELIMITER t) as H.
  remember (BLOCK_DELIMITER ++ t) as s eqn:Hs.
  rewrite delimiter_app_shape in Hs. subst s.
  rewrite (count_occurs _ _ _ H).
  pose proof (count_app_ge BLOCK_DELIMITER [x0a; x0d; x0a]
                           (VERSION_LINE ++ t)).
  lia.
Qed.

(** The stream holds at least the delimiters put at the joins. *)
Lemma count_stream_ge rest : forall first,
  (List.length rest
   <= count_occurrences BLOCK_DELIMITER
        (stream_of BLOCK_DELIMITER (first :: rest)))%nat.
Proof.
  unfold stream_of.
  induction rest as [|r rest IH]; intros first; [simpl; lia|].
  rewrite join_two.
  pose proof (count_app_ge BLOCK_DELIMITER first
                (BLOCK_DELIMITER ++ join BLOCK_DELIMITER (r :: rest))).
  pose proof (count_delimiter_app (join BLOCK_DELIMITER (r :: rest))).
  pose proof (count_app_ge BLOCK_DELIMITER VERSION_LINE
                (join BLOCK_DELIMITER (r :: rest))).
  specialize (IH r). simpl List.length. lia.
Qed.

(** When the delimiter occurs at the joins only, the first one found is
    the first join, and the rest of the stream is again such a stream. *)
Lemma stream_first_cut first r rest :
  count_occurrences BLOCK_DELIMITER
    (stream_of BLOCK_DELIMITER (first :: r :: rest)) = S (List.length rest) ->
  find_nat Byte.eqb BLOCK_DELIMITER
    (stream_of BLOCK_DELIMITER (first :: r :: rest))
  = Some (List.length first)
  /\ count_occurrences BLOCK_DELIMITER
       (stream_of BLOCK_DELIMITER ((VERSION_LINE ++ r) :: rest))
     = List.length rest.
Proof.
  unfold stream_of. rewrite join_two, join_head_app.
  set (tail := join BLOCK_DELIMITER (r :: rest)).
  intros Hcount.
  pose proof (count_stream_ge rest r) as Htail.
  unfold stream_of in Htail. fold tail in Htail.
  pose proof (count_delimiter_app tail) as Hmark.
  pose proof (count_app_ge BLOCK_DELIMITER VERSION_LINE tail) as Hver.
  pose proof (count_app_ge BLOCK_DELIMITER first (BLOCK_DELIMITER ++ tail))
    as Hall.
  split; [|lia].
  destruct (find_nat_least BLOCK_DELIMITER
              (first ++ BLOCK_DELIMITER ++ tail) (List.length first))
    as (i & Hi & Hle).
  { rewrite skipn_app, skipn_all, Nat.sub_diag. cbn [skipn app].
    apply starts_with_self. }
  { rewrite length_app. lia. }
  rewrite Hi. f_equal.
  destruct (Nat.eq_dec i (List.length first)) as [|Hne]; [assumption|].
  exfalso.
  pose proof (find_nat_occurs _ _ _ Hi) as Hocc.
  rewrite skipn_app in Hocc.
  replace (i - List.length first)%nat with 0%nat in Hocc by lia.
  cbn [skipn] in Hocc.
  pose proof (count_app_ge BLOCK_DELIMITER (firstn i first)
                (skipn i first ++ BLOCK_DELIMITER ++ tail)) as Hpre.
  replace (firstn i first ++ skipn i first ++ BLOCK_DELIMITER ++ tail)
    with (first ++ BLOCK_DELIMITER ++ tail) in Hpre
    by (now rewrite (app_assoc (firstn i first)), firstn_skipn).
  destruct (skipn i first) as [|b rest'] eqn:Hskip.
  { apply (f_equal (@List.length byte)) in Hskip.
    rewrite length_skipn in Hskip. simpl in Hskip. lia. }
  rewrite <- app_comm_cons in Hocc, Hpre.
  rewrite (count_occurs _ _ _ Hocc) in Hpre.
  pose proof (count_app_ge BLOCK_DELIMITER rest' (BLOCK_DELIMITER ++ tail)).
  lia.
Qed.

(** The blocks recorded for such a stream. *)
Lemma stream_blocks rest : forall first seen,
  count_occurrences BLOCK_DELIMITER
    (stream_of BLOCK_DELIMITER (first :: rest)) = List.length rest ->
  fst (match inner_loop record_block seen
               (stream_of BLOCK_DELIMITER (first :: rest)) with
       | Abort st' e => (st', Some e)
       | Next st' buf =>
           if 0 <? len buf then record_block buf st' else (st', None)
       end)
  = seen ++ blocks_of first rest.
Proof.
  induction rest as [|r rest IH]; intros first seen Hcount.
  - simpl in Hcount. apply count_zero_missing in Hcount.
    unfold stream_of. cbn [join].
    rewrite (inner_loop_missing _ _ _ Hcount).
    destruct first as [|b first]; simpl; [now rewrite app_nil_r|].
    unfold len. cbn [List.length].
    destruct (Z.ltb_spec 0 (Z.of_nat (S (List.length first)))); [|lia].
    reflexivity.
  - destruct (stream_first_cut first r rest Hcount) as [Hfind Hrest].
    rewrite (inner_loop_record_found _ _ _ Hfind).
    unfold stream_of at 1 2. rewrite join_two.
    rewrite firstn_app, skipn_app, firstn_all2, skipn_all2 by lia.
    replace (List.length first + 2 - List.length first)%nat with 2%nat by lia.
    replace (List.length first + 4 - List.length first)%nat with 4%nat by lia.
    rewrite BLOCK_DELIMITER_split.
    change (firstn 2 ((LINE_DELIMITER ++ LINE_DELIMITER ++ VERSION_LINE)
                        ++ join (LINE_DELIMITER ++ LINE_DELIMITER
                                   ++ VERSION_LINE) (r :: rest)))
      with LINE_DELIMITER.
    change (skipn 4 ((LINE_DELIMITER ++ LINE_DELIMITER ++ VERSION_LINE)
                       ++ join (LINE_DELIMITER ++ LINE_DELIMITER
                                  ++ VERSION_LINE) (r :: rest)))
      with (VERSION_LINE
              ++ join (LINE_DELIMITER ++ LINE_DELIMITER ++ VERSION_LINE)
                      (r :: rest)).
    rewrite <- BLOCK_DELIMITER_split, <- join_head_app. simpl app at 1.
    fold (stream_of BLOCK_DELIMITER ((VERSION_LINE ++ r) :: rest)).
    rewrite (IH _ _ Hrest). cbn [blocks_of].
    now rewrite <- app_assoc.
Qed.

Lemma raw_records_stream size first rest :
  size <> 0 ->
  count_occurrences BLOCK_DELIMITER
    (stream_of BLOCK_DELIMITER (first :: rest)) = List.length rest ->
  raw_records size (stream_of BLOCK_DELIMITER (first :: rest))
  = blocks_of first rest.
Proof.
  intros Hsize Hcount. unfold raw_records, raw_blocks.
  rewrite drive_concat, iter_read_concat by assumption.
  exact (stream_blocks rest first [] Hcount).
Qed.

Lemma blocks_of_length rest : forall first,
  first <> [] \/ rest <> [] ->
  List.length (blocks_of first rest) = S (List.length rest).
Proof.
  induction rest as [|r rest IH]; intros first H; cbn [blocks_of].
  - destruct first; [destruct H; congruence | reflexivity].
  - cbn [List.length]. rewrite IH; [reflexivity|].
    left. unfold VERSION_LINE. discriminate.
Qed.

(** ** Counters *)

Lemma len_snoc {A : Type} (l : list A) (x : A) : len (l ++ [x]) = len l + 1.
Proof. unfold len. rewrite length_app. simpl. lia. Qed.

Lemma try_entry_counters detect decode lower cs block r :
  counters_match r ->
  counters_match (fst (try_entry detect decode lower cs block r)).
Proof.
  intros [Hl Hs]. unfold try_entry.
  destruct (WetEntry_init detect decode lower block cs) as [entry|e].
  - split; simpl; [rewrite len_snoc; lia | assumption].
  - destruct (is_record_error e); [|now split].
    split; simpl; [assumption | rewrite len_snoc; lia].
Qed.

Lemma feed_counters detect decode lower cs blocks : forall r,
  counters_match r ->
  counters_match (fst (feed (try_entry detect decode lower cs) blocks r)).
Proof.
  induction blocks as [|b blocks IH]; intros r Hr; simpl; [assumption|].
  pose proof (try_entry_counters detect decode lower cs b r Hr) as H.
  destruct (try_entry detect decode lower cs b r) as [r' [e|]];
    [exact H | now apply IH].
Qed.

Lemma parse_with_feed detect decode lower size p f cs :
  parse_with detect decode lower size p f cs
  = feed (try_entry detect decode lower cs) (raw_records size f) fresh_run.
Proof. unfold parse_with, raw_records. apply drive_feed. Qed.

(* ================================================================== *)
(** * The module constants *)
(* ================================================================== *)

(** C6, as stated, fails: the block delimiter is not
    [LINE_DELIMITER + "WARC/1.0" + LINE_DELIMITER] and it is not 12 bytes
    long. *)
Lemma block_delimiter_is_not_12_bytes :
  BLOCK_DELIMITER <> LINE_DELIMITER ++ bytes_of "WARC/1.0" ++ LINE_DELIMITER
  /\ List.length BLOCK_DELIMITER <> 12%nat.
Proof.
  rewrite BLOCK_DELIMITER_bytes. split; [discriminate | simpl; lia].
Qed.

(** C6, amended: the block delimiter is two line delimiters, the ASCII
    text [WARC/1.0] and one line delimiter, that is the 14 bytes
    CR LF CR LF 'W' 'A' 'R' 'C' '/' '1' '.' '0' CR LF; the expression
    that builds it raises nothing. *)
Theorem block_delimiter_is_14_bytes :
  BLOCK_DELIMITER_expr
  = Ok (LINE_DELIMITER ++ LINE_DELIMITER ++ bytes_of "WARC/1.0"
          ++ LINE_DELIMITER)
  /\ BLOCK_DELIMITER
     = [x0d; x0a; x0d; x0a; x57; x41; x52; x43; x2f; x31; x2e; x30; x0d; x0a]
  /\ List.length BLOCK_DELIMITER = 14%nat.
Proof.
  split; [vm_compute; reflexivity|].
  split; [apply BLOCK_DELIMITER_bytes | apply BLOCK_DELIMITER_length].
Qed.

(* ================================================================== *)
(** * The splitter *)
(* ================================================================== *)

Lemma raw_blocks_concat chunks f :
  List.concat chunks = f -> raw_blocks chunks = raw_records (-1) f.
Proof.
  intros <-. unfold raw_records, raw_blocks.
  rewrite !drive_concat, iter_read_concat by lia. reflexivity.
Qed.

(** C5: for every input, reading by chunks of 1, 7 or 4096 bytes or the
    whole input in one read gives the same raw blocks, and the same run
    of [parse] (entries, counters, logged errors, outcome); more
    generally the blocks depend on the bytes read and not on the chunks
    in which they arrive. *)
Theorem chunk_boundary_invariance detect decode lower p f cs :
  raw_records 1 f = raw_records (-1) f
  /\ raw_records 7 f = raw_records (-1) f
  /\ raw_records 4096 f = raw_records (-1) f
  /\ parse_with detect decode lower 1 p f cs
     = parse_with detect decode lower (-1) p f cs
  /\ parse_with detect decode lower 7 p f cs
     = parse_with detect decode lower (-1) p f cs
  /\ parse detect decode lower p f cs
     = parse_with detect decode lower (-1) p f cs
  /\ (forall chunks,
         List.concat chunks = f -> raw_blocks chunks = raw_records (-1) f).
Proof.
  assert (Hraw : forall size, size <> 0 ->
                 raw_records size f = raw_records (-1) f).
  { intros size Hsize. unfold raw_records at 1.
    apply raw_blocks_concat, iter_read_concat, Hsize. }
  assert (Hrun : forall size, size <> 0 ->
                 parse_with detect decode lower size p f cs
                 = parse_with detect decode lower (-1) p f cs).
  { intros size Hsize. unfold parse_with. apply drive_chunk_size; lia. }
  split; [apply Hraw; lia|]. split; [apply Hraw; lia|].
  split; [apply Hraw; lia|]. split; [apply Hrun; lia|].
  split; [apply Hrun; lia|]. split; [apply Hrun; lia|].
  intros chunks. apply raw_blocks_concat.
Qed.

(** C1, as stated, fails: for the records [a] and [b] joined by the block
    delimiter, the blocks cut, each without its trailing line delimiter,
    are not the records (the second block starts with the version line);
    a stream made of one empty record gives no block; and two records of
    which the first holds the delimiter give three blocks. *)
Lemma blocks_are_not_the_records :
  map strip_line_delimiter
      (raw_records (1024 * 4)
         (stream_of BLOCK_DELIMITER [bytes_of "a"; bytes_of "b"]))
  <> [bytes_of "a"; bytes_of "b"]
  /\ raw_records (1024 * 4)
       (stream_of BLOCK_DELIMITER [bytes_of "a"; bytes_of "b"])
     = [bytes_of "a" ++ LINE_DELIMITER; VERSION_LINE ++ bytes_of "b"]
  /\ List.length (raw_records (1024 * 4) (stream_of BLOCK_DELIMITER [[]]))
     <> 1%nat
  /\ List.length
       (raw_records (1024 * 4)
          (stream_of BLOCK_DELIMITER
             [bytes_of "x" ++ BLOCK_DELIMITER ++ bytes_of "y";
              bytes_of "b"]))
     <> 2%nat.
Proof.
  split; [vm_compute; discriminate|].
  split; [vm_compute; reflexivity|].
  split; vm_compute; discriminate.
Qed.

(** C1, amended: for every stream
    [record_1 + MARKER + ... + MARKER + record_n], [MARKER] being the
    14-byte block delimiter, in which the delimiter occurs at the [n-1]
    joins only, and every chunk size other than zero, the loops of
    [parse] cut, in stream order, [record_1] followed by one line
    delimiter, then each later record preceded by the line
    [WARC/1.0 CR LF] and followed by one line delimiter, except that the
    last block (cut by the final flush) has no trailing line delimiter;
    these are [n] blocks unless the stream is empty, and [parse] handles
    exactly these blocks, in this order, up to the first exception that it
    lets through. *)
Theorem blocks_of_joined_stream detect decode lower p cs size first rest :
  size <> 0 ->
  count_occurrences BLOCK_DELIMITER
    (stream_of BLOCK_DELIMITER (first :: rest)) = List.length rest ->
  raw_records size (stream_of BLOCK_DELIMITER (first :: rest))
  = blocks_of first rest
  /\ (first <> [] \/ rest <> [] ->
      List.length
        (raw_records size (stream_of BLOCK_DELIMITER (first :: rest)))
      = S (List.length rest))
  /\ parse_with detect decode lower size p
                (stream_of BLOCK_DELIMITER (first :: rest)) cs
     = feed (try_entry detect decode lower cs) (blocks_of first rest)
            fresh_run.
Proof.
  intros Hsize Hcount.
  pose proof (raw_records_stream size first rest Hsize Hcount) as H.
  split; [exact H|]. split.
  - intros Hne. rewrite H. now apply blocks_of_length.
  - now rewrite parse_with_feed, H.
Qed.

(** Three one-byte records joined by the delimiter. *)
Lemma blocks_of_joined_stream_witness :
  (1024 * 4 <> 0
   /\ count_occurrences BLOCK_DELIMITER
        (stream_of BLOCK_DELIMITER
           [bytes_of "a"; bytes_of "b"; bytes_of "c"]) = 2%nat)
  /\ raw_records (1024 * 4)
       (stream_of BLOCK_DELIMITER [bytes_of "a"; bytes_of "b"; bytes_of "c"])
     = [bytes_of "a" ++ LINE_DELIMITER;
        VERSION_LINE ++ bytes_of "b" ++ LINE_DELIMITER;
        VERSION_LINE ++ bytes_of "c"].
Proof.
  split; [split; [lia | vm_compute; reflexivity]|].
  apply (blocks_of_joined_stream Demo.detect Demo.decode Demo.lower
           Parser_init true (1024 * 4)
           (bytes_of "a") [bytes_of "b"; bytes_of "c"]);
    [lia | vm_compute; reflexivity].
Defined.

(* ================================================================== *)
(** * Counters *)
(* ================================================================== *)

(** C7: every call of [parse] sets both counters to zero before it reads
    anything, so after a second call on the same instance the run and its
    counters are those of a fresh instance on the second input, and the
    counters count the entries yielded and the records skipped during
    that second call only. *)
Theorem counters_reset_each_call detect decode lower p f1 cs1 f2 cs2 :
  let first := parse detect decode lower p f1 cs1 in
  let second := parse detect decode lower (self (fst first)) f2 cs2 in
  second = parse detect decode lower Parser_init f2 cs2
  /\ _loaded_counter (self (fst second)) = len (yielded (fst second))
  /\ _skip_counter (self (fst second)) = len (warned (fst second)).
Proof.
  cbv zeta. split; [reflexivity|].
  unfold parse. rewrite parse_with_feed.
  apply feed_counters. split; reflexivity.
Qed.

(* ================================================================== *)
(** * The record decoder *)
(* ================================================================== *)

(** ** The confidence threshold *)

Lemma half_spec :
  Prim2SF 0.5%float = S754_finite false 4503599627370496 (-53).
Proof. vm_compute. reflexivity. Qed.

Lemma SFleb_positive_not_SFltb m0 e0 x :
  SFleb (S754_finite false m0 e0) x = true ->
  SFltb x (S754_finite false m0 e0) = false.
Proof.
  unfold SFleb, SFltb.
  destruct x as [s|s| |s m e]; cbn [SFcompare];
    try destruct s; try congruence.
  change (PosDef.Pos.compare_cont Eq m0 m) with (Pos.compare m0 m).
  change (PosDef.Pos.compare_cont Eq m m0) with (Pos.compare m m0).
  rewrite (Z.compare_antisym e0 e).
  rewrite (Pos.compare_antisym m0 m).
  destruct (e0 ?= e)%Z; cbn [CompOpp]; try congruence.
  destruct (m0 ?= m)%positive; cbn [CompOpp]; congruence.
Qed.

Lemma not_below_half c :
  PrimFloat.leb 0.5 c = true -> PrimFloat.ltb c 0.5 = false.
Proof.
  rewrite leb_spec, ltb_spec, half_spec.
  apply SFleb_positive_not_SFltb.
Qed.

Lemma parse_body_rejected detect decode body :
  PrimFloat.ltb (confidence (detect body)) 0.5 = true ->
  _parse_body detect decode body
  = Raise (EncodingDetectionError (encoding (detect body))).
Proof. unfold _parse_body. now intros ->. Qed.

Lemma parse_body_decoded detect decode body :
  PrimFloat.ltb (confidence (detect body)) 0.5 = false ->
  _parse_body detect decode body
  = match decode_with decode body (encoding (detect body)) with
    | Ok text => Ok (text, encoding (detect body))
    | Raise _ =>
        Raise (DecodingFailureError (encoding (detect body))
                                    (slice_to body 20))
    end.
Proof. unfold _parse_body. now intros ->. Qed.

(** C3: when the detector's confidence is below 0.5 the body is rejected
    with [EncodingDetectionError] whatever the codec would do (it is not
    consulted); when the confidence is at least 0.5 the result is the
    outcome of decoding with the proposed encoding.  A confidence of 0.49
    is rejected and one of exactly 0.5 goes on to decode. *)
Theorem confidence_threshold detect decode body :
  (PrimFloat.ltb (confidence (detect body)) 0.5 = true ->
   forall any_decode,
     _parse_body detect any_decode body
     = Raise (EncodingDetectionError (encoding (detect body))))
  /\ (PrimFloat.leb 0.5 (confidence (detect body)) = true ->
      _parse_body detect decode body
      = match decode_with decode body (encoding (detect body)) with
        | Ok text => Ok (text, encoding (detect body))
        | Raise _ =>
            Raise (DecodingFailureError (encoding (detect body))
                                        (slice_to body 20))
        end)
  /\ (confidence (detect body) = float_0_49 ->
      _parse_body detect decode body
      = Raise (EncodingDetectionError (encoding (detect body))))
  /\ (confidence (detect body) = 0.5%float ->
      _parse_body detect decode body
      = match decode_with decode body (encoding (detect body)) with
        | Ok text => Ok (text, encoding (detect body))
        | Raise _ =>
            Raise (DecodingFailureError (encoding (detect body))
                                        (slice_to body 20))
        end).
Proof.
  repeat split.
  - intros H any_decode. now apply parse_body_rejected.
  - intros H. now apply parse_body_decoded, not_below_half.
  - intros H. apply parse_body_rejected. now rewrite H.
  - intros H. apply parse_body_decoded. now rewrite H.
Qed.

(** Bodies on both sides of the threshold, and one exactly on it. *)
Lemma confidence_threshold_witness :
  _parse_body Demo.detect Demo.decode (bytes_of "?two")
  = Raise (EncodingDetectionError (Some "windows-1252"%string))
  /\ _parse_body Demo.detect Demo.decode (bytes_of "two")
     = Ok (str_of "two", Some "ascii"%string)
  /\ _parse_body Demo.detect Demo.decode (bytes_of "!two")
     = Raise (DecodingFailureError None (bytes_of "!two")).
Proof.
  split; [|split].
  - destruct (confidence_threshold Demo.detect Demo.decode (bytes_of "?two"))
      as [Hlow _].
    apply Hlow. vm_compute. reflexivity.
  - destruct (confidence_threshold Demo.detect Demo.decode (bytes_of "two"))
      as [_ [Hhigh _]].
    rewrite Hhigh; vm_compute; reflexivity.
  - destruct (confidence_threshold Demo.detect Demo.decode (bytes_of "!two"))
      as [_ [_ [_ Hhalf]]].
    rewrite Hhalf; vm_compute; reflexivity.
Defined.

(** ** Errors of the body *)

Lemma try_entry_body_failure detect decode lower cs block r h e :
  _parse_header lower (slice_to block (header_tail_index block)) cs = Ok h ->
  _parse_body detect decode (slice_from block (body_head_index block))
  = Raise e ->
  is_record_error e = true ->
  try_entry detect decode lower cs block r = (entry_skipped e r, None).
Proof.
  intros Hh Hb He. unfold try_entry, WetEntry_init.
  rewrite Hh. cbn [bind]. rewrite Hb. cbn [bind]. now rewrite He.
Qed.

(** C10: when the confidence check lets the body through and decoding with
    the proposed encoding raises anything at all, [_parse_body] raises
    [DecodingFailureError] with the encoding and the first 20 bytes; a
    detector answer without a name makes [decode] raise [TypeError] and
    ends the same way; and [parse] counts a record with such a body as
    skipped and lets no exception through. *)
Theorem decode_errors_become_failures detect decode lower body e :
  PrimFloat.ltb (confidence (detect body)) 0.5 = false ->
  decode_with decode body (encoding (detect body)) = Raise e ->
  _parse_body detect decode body
  = Raise (DecodingFailureError (encoding (detect body)) (slice_to body 20))
  /\ (encoding (detect body) = None -> e = TypeError)
  /\ (forall block cs r h,
         slice_from block (body_head_index block) = body ->
         _parse_header lower (slice_to block (header_tail_index block)) cs
         = Ok h ->
         try_entry detect decode lower cs block r
         = (entry_skipped
              (DecodingFailureError (encoding (detect body))
                                    (slice_to body 20)) r, None)).
Proof.
  intros Hconf Hdec.
  assert (Hbody : _parse_body detect decode body
                  = Raise (DecodingFailureError (encoding (detect body))
                                                (slice_to body 20))).
  { rewrite parse_body_decoded by assumption. now rewrite Hdec. }
  split; [exact Hbody|]. split.
  - intros Hnone. rewrite Hnone in Hdec. simpl in Hdec. congruence.
  - intros block cs r h Hslice Hh.
    apply (try_entry_body_failure detect decode lower cs block r h);
      [assumption | now rewrite Hslice | reflexivity].
Qed.

(** A confident detector answer without an encoding name. *)
Lemma decode_errors_become_failures_witness :
  (PrimFloat.ltb (confidence (Demo.detect (bytes_of "!x"))) 0.5 = false
   /\ decode_with Demo.decode (bytes_of "!x")
                  (encoding (Demo.detect (bytes_of "!x"))) = Raise TypeError)
  /\ _parse_body Demo.detect Demo.decode (bytes_of "!x")
     = Raise (DecodingFailureError None (bytes_of "!x")).
Proof.
  split; [split; reflexivity|].
  apply (decode_errors_become_failures Demo.detect Demo.decode Demo.lower
           (bytes_of "!x") TypeError); reflexivity.
Defined.

(** ** Errors of the header *)

Lemma split_aux_nonempty {A : Type} (eqb : A -> A -> bool) sep s :
  forall skip cur, split_aux eqb sep skip cur s <> [].
Proof.
  induction s as [|x s IH]; intros skip cur; simpl; [discriminate|].
  destruct skip; [|apply IH].
  destruct (starts_with eqb sep (x :: s)); [discriminate | apply IH].
Qed.

Lemma key_value_len l : len (key_value l) = 2.
Proof.
  unfold key_value.
  set (kv := map (fun e => rstrip (lstrip e)) (split N.eqb l (str_of ":"))).
  assert (Hne : kv <> []).
  { unfold kv, split. intros H. apply map_eq_nil in H.
    now apply split_aux_nonempty in H. }
  destruct (Z.eqb_spec (len kv) 1) as [H1|H1].
  - unfold len in *. rewrite length_app. simpl. lia.
  - destruct (Z.ltb_spec 2 (len kv)) as [H2|H2]; [reflexivity|].
    destruct kv as [|a [|b [|c kv]]]; unfold len in *; simpl in *;
      try congruence; lia.
Qed.

Lemma header_line_errors lower cs d l e :
  header_line lower cs d l = Raise e -> e = UnicodeDecodeError.
Proof.
  unfold header_line, bytes_decode.
  destruct (utf8_decode l) as [s|]; cbn [bind]; [|congruence].
  destruct (len s =? 0); [discriminate|].
  rewrite key_value_len. simpl. discriminate.
Qed.

Lemma header_lines_errors lower cs lines : forall d e,
  header_lines lower cs d lines = Raise e -> e = UnicodeDecodeError.
Proof.
  induction lines as [|l lines IH]; intros d e; simpl; [discriminate|].
  destruct (header_line lower cs d l) as [d'|e'] eqn:H; cbn [bind].
  - apply IH.
  - intros [= <-]. exact (header_line_errors _ _ _ _ _ H).
Qed.

Lemma parse_header_errors lower block cs e :
  _parse_header lower block cs = Raise e -> e = UnicodeDecodeError.
Proof. apply header_lines_errors. Qed.

Lemma parse_body_errors detect decode body e :
  _parse_body detect decode body = Raise e -> is_record_error e = true.
Proof.
  unfold _parse_body.
  destruct (PrimFloat.ltb (confidence (detect body)) 0.5);
    [now intros [= <-]|].
  destruct (decode_with decode body (encoding (detect body)));
    [discriminate | now intros [= <-]].
Qed.

(** Construction fails with a header that is not UTF-8, or with one of
    the two errors of the body, and in no other way. *)
Lemma WetEntry_init_errors detect decode lower block cs e :
  WetEntry_init detect decode lower block cs = Raise e ->
  e = UnicodeDecodeError \/ is_record_error e = true.
Proof.
  unfold WetEntry_init.
  destruct (_parse_header lower _ cs) as [h|e1] eqn:Hh; cbn [bind].
  - destruct (_parse_body detect decode _) as [b|e2] eqn:Hb; cbn [bind];
      [discriminate|].
    intros [= <-]. right. exact (parse_body_errors _ _ _ _ Hb).
  - intros [= <-]. left. exact (parse_header_errors _ _ _ _ Hh).
Qed.

Lemma feed_try_entry_abort detect decode lower cs blocks : forall r r' e,
  feed (try_entry detect decode lower cs) blocks r = (r', Some e) ->
  is_record_error e = false.
Proof.
  induction blocks as [|b blocks IH]; intros r r' e; simpl; [discriminate|].
  destruct (try_entry detect decode lower cs b r) as [r1 [e1|]] eqn:H.
  - intros [= _ <-]. unfold try_entry in H.
    destruct (WetEntry_init detect decode lower b cs) as [entry|e0];
      [discriminate|].
    destruct (is_record_error e0) eqn:E; [discriminate|].
    now injection H as _ <-.
  - apply IH.
Qed.

(* ================================================================== *)
(** * Skipping a record *)
(* ================================================================== *)

(** C4: when the block cut at the first delimiter of the buffer makes
    [WetEntry] raise [EncodingDetectionError] or [DecodingFailureError],
    the [try] statement lets no exception through, adds one to the skip
    counter, leaves the loaded counter and the entries yielded as they
    were, and the loop goes on with the buffer from which the block and
    two line delimiters have been dropped; and no run of [parse] ever ends
    with one of these two errors. *)
Theorem record_errors_are_skipped detect decode lower cs r buf e :
  find Byte.eqb buf BLOCK_DELIMITER <> -1 ->
  WetEntry_init detect decode lower
    (slice_to buf (find Byte.eqb buf BLOCK_DELIMITER + len LINE_DELIMITER))
    cs = Raise e ->
  is_record_error e = true ->
  try_entry detect decode lower cs
    (slice_to buf (find Byte.eqb buf BLOCK_DELIMITER + len LINE_DELIMITER)) r
  = (entry_skipped e r, None)
  /\ _skip_counter (self (entry_skipped e r)) = _skip_counter (self r) + 1
  /\ _loaded_counter (self (entry_skipped e r)) = _loaded_counter (self r)
  /\ yielded (entry_skipped e r) = yielded r
  /\ inner_loop (try_entry detect decode lower cs) r buf
     = inner_loop (try_entry detect decode lower cs) (entry_skipped e r)
         (slice_from buf
            (find Byte.eqb buf BLOCK_DELIMITER + 2 * len LINE_DELIMITER))
  /\ (forall size p f,
         match snd (parse_with detect decode lower size p f cs) with
         | Some e' => is_record_error e' = false
         | None => True
         end).
Proof.
  intros Hfound Hraise Hclass.
  assert (Htry : try_entry detect decode lower cs
                   (slice_to buf (find Byte.eqb buf BLOCK_DELIMITER
                                  + len LINE_DELIMITER)) r
                 = (entry_skipped e r, None)).
  { unfold try_entry. now rewrite Hraise, Hclass. }
  split; [exact Htry|]. repeat split.
  - destruct (find_cases buf BLOCK_DELIMITER) as [[_ Hm]|(i & Hi & Hz)];
      [congruence|].
    rewrite Hz in *. change (len LINE_DELIMITER) with 2 in *.
    replace (Z.of_nat i + 2) with (Z.of_nat (i + 2)) in * by lia.
    replace (Z.of_nat i + 2 * 2) with (Z.of_nat (i + 4)) by lia.
    rewrite slice_to_nat in Htry. rewrite slice_from_nat.
    now rewrite (inner_loop_found _ _ _ _ Hi), Htry.
  - intros size p f. rewrite parse_with_feed.
    destruct (feed (try_entry detect decode lower cs) (raw_records size f)
                   fresh_run) as [r' [e'|]] eqn:H; simpl; [|exact I].
    exact (feed_try_entry_abort _ _ _ _ _ _ _ _ H).
Qed.

(** A buffer whose first record is rejected by the detector. *)
Lemma record_errors_are_skipped_witness :
  (find Byte.eqb Demo.doubtful_then_more BLOCK_DELIMITER <> -1
   /\ WetEntry_init Demo.detect Demo.decode Demo.lower
        (slice_to Demo.doubtful_then_more
           (find Byte.eqb Demo.doubtful_then_more BLOCK_DELIMITER
            + len LINE_DELIMITER)) true
      = Raise (EncodingDetectionError (Some "windows-1252"%string))
   /\ is_record_error (EncodingDetectionError (Some "windows-1252"%string))
      = true)
  /\ inner_loop (try_entry Demo.detect Demo.decode Demo.lower true)
       fresh_run Demo.doubtful_then_more
     = inner_loop (try_entry Demo.detect Demo.decode Demo.lower true)
         (entry_skipped (EncodingDetectionError (Some "windows-1252"%string))
                        fresh_run)
         (VERSION_LINE ++ bytes_of "B: 2" ++ LINE_DELIMITER ++ LINE_DELIMITER
            ++ bytes_of "ok").
Proof.
  assert (H1 : find Byte.eqb Demo.doubtful_then_more BLOCK_DELIMITER <> -1)
    by (vm_compute; discriminate).
  assert (H2 : WetEntry_init Demo.detect Demo.decode Demo.lower
                 (slice_to Demo.doubtful_then_more
                    (find Byte.eqb Demo.doubtful_then_more BLOCK_DELIMITER
                     + len LINE_DELIMITER)) true
               = Raise (EncodingDetectionError (Some "windows-1252"%string)))
    by (vm_compute; reflexivity).
  split; [split; [exact H1 | split; [exact H2 | reflexivity]]|].
  destruct (record_errors_are_skipped Demo.detect Demo.decode Demo.lower
              true fresh_run Demo.doubtful_then_more _ H1 H2 eq_refl)
    as (_ & _ & _ & _ & Hloop & _).
  rewrite Hloop. f_equal.
Defined.

(* ================================================================== *)
(** * Blocks without a header/body boundary *)
(* ================================================================== *)

Lemma header_line_from_empty lower cs l s :
  utf8_decode l = Some s ->
  exists h, header_line lower cs [] l = Ok h /\ (List.length h <= 1)%nat.
Proof.
  intros Hs. unfold header_line, bytes_decode. rewrite Hs. cbn [bind].
  destruct (len s =? 0); [exists []; split; [reflexivity | simpl; lia]|].
  rewrite key_value_len. cbn [Z.eqb Pos.eqb negb dict_contains dict_setitem].
  eexists. split; [reflexivity|].
  cbn [dict_append]. now destruct (str_eqb _ _).
Qed.

Lemma parse_header_one_ascii lower cs b :
  (Byte.to_N b <? 128)%N = true ->
  exists h, _parse_header lower [b] cs = Ok h /\ (List.length h <= 1)%nat.
Proof.
  intros H. unfold _parse_header, split.
  cbn [split_aux starts_with LINE_DELIMITER].
  rewrite andb_false_r. cbn [rev app header_lines].
  destruct (header_line_from_empty lower cs [b] [Byte.to_N b])
    as (h & Hh & Hlen).
  { cbn [utf8_decode]. now rewrite H. }
  exists h. rewrite Hh. split; [reflexivity | exact Hlen].
Qed.

Lemma parse_header_empty lower cs : _parse_header lower [] cs = Ok [].
Proof. reflexivity. Qed.

(** The two slices of a block without two consecutive line delimiters:
    [find] gives -1, so the header is parsed from [block[:1]] and the
    body is decoded from [block[3:]]. *)
Lemma boundary_less_slices detect decode lower block cs :
  find Byte.eqb block (repeat_seq 2 LINE_DELIMITER) = -1 ->
  header_tail_index block = 1
  /\ body_head_index block = 3
  /\ WetEntry_init detect decode lower block cs
     = (h <- _parse_header lower (firstn 1 block) cs ;;
        b <- _parse_body detect decode (skipn 3 block) ;;
        Ok {| _header := h; _body := fst b; _encoding := snd b |})
  /\ WetEntry_init detect decode lower block cs <> Raise AssertionError
  /\ (forallb (fun b => (Byte.to_N b <? 128)%N) (firstn 1 block) = true ->
      exists h, _parse_header lower (firstn 1 block) cs = Ok h
                /\ (List.length h <= 1)%nat).
Proof.
  intros Hfind.
  assert (Ht : header_tail_index block = 1).
  { unfold header_tail_index. rewrite Hfind. reflexivity. }
  assert (Hb : body_head_index block = 3).
  { unfold body_head_index. rewrite Ht. reflexivity. }
  split; [exact Ht|]. split; [exact Hb|]. split; [|split].
  - unfold WetEntry_init. rewrite Hb, Ht.
    change 1 with (Z.of_nat 1). change 3 with (Z.of_nat 3).
    now rewrite slice_to_nat, slice_from_nat.
  - intros H. apply WetEntry_init_errors in H as [H|H]; discriminate.
  - destruct block as [|b block]; cbn [firstn forallb].
    + intros _. exists []. split; [reflexivity | simpl; lia].
    + rewrite andb_true_r. intros Hascii.
      exact (parse_header_one_ascii lower cs b Hascii).
Qed.

(** Six bytes without any line delimiter: the second and third bytes
    belong neither to the header nor to the body. *)
Example boundary_less_slices_of_six_bytes :
  find Byte.eqb (bytes_of "abcdef") (repeat_seq 2 LINE_DELIMITER) = -1
  /\ WetEntry_init Demo.detect Demo.decode Demo.lower (bytes_of "abcdef") true
     = Ok {| _header := [(str_of "a", [[]])];
             _body := str_of "def";
             _encoding := Some "ascii"%string |}.
Proof.
  split; [reflexivity|].
  destruct (boundary_less_slices Demo.detect Demo.decode Demo.lower
              (bytes_of "abcdef") true eq_refl) as (_ & _ & Hinit & _).
  rewrite Hinit. vm_compute. reflexivity.
Qed.

(* ================================================================== *)
(** * Header lines with several colons *)
(* ================================================================== *)

(** C2, on the code: every piece between two colons is stripped before
    the pieces after the first are joined again, so the line
    [X-Custom: a: b: c] gives the key [X-Custom] and the value [a:b:c],
    which is not the text [a: b: c] that follows the first colon. *)
Theorem colon_value_loses_inner_spaces lower :
  key_value (str_of "X-Custom: a: b: c")
  = [str_of "X-Custom"; str_of "a:b:c"]
  /\ _parse_header lower (bytes_of "X-Custom: a: b: c") true
     = Ok [(str_of "X-Custom", [str_of "a:b:c"])]
  /\ str_of "a:b:c" <> str_of "a: b: c".
Proof.
  split; [vm_compute; reflexivity|].
  split; [vm_compute; reflexivity | vm_compute; discriminate].
Qed.

(* ================================================================== *)
(** * The report at the end of a run *)
(* ================================================================== *)

(** C8, on the code: a run over an empty file yields nothing and leaves
    both counters at zero, and the ratio of the last log line then raises
    [ZeroDivisionError]; nothing guards the division. *)
Theorem report_divides_by_zero detect decode lower :
  parse detect decode lower Parser_init [] true = (fresh_run, None)
  /\ skip_ratio (self fresh_run) = Raise ZeroDivisionError
  /\ main detect decode lower [] = Raise ZeroDivisionError.
Proof.
  split; [reflexivity|].
  split; [vm_compute; reflexivity|].
  unfold main.
  change (parse detect decode lower Parser_init [] true)
    with (fresh_run, @None exn).
  vm_compute. reflexivity.
Qed.

(* ================================================================== *)
(** * Runs on small inputs *)
(* ================================================================== *)

(** A key that comes twice keeps both values in order, a line without a
    colon gives an empty value, and the case flag folds the keys. *)
Example header_of_four_lines :
  _parse_header Demo.lower
    (bytes_of "Bare-Key" ++ LINE_DELIMITER ++ bytes_of "Content-Type: a"
       ++ LINE_DELIMITER ++ bytes_of "Content-Type:b" ++ LINE_DELIMITER
       ++ LINE_DELIMITER)
    true
  = Ok [(str_of "Bare-Key", [[]]);
        (str_of "Content-Type", [str_of "a"; str_of "b"])]
  /\ _parse_header Demo.lower
       (bytes_of "Content-Type: a" ++ LINE_DELIMITER
          ++ bytes_of "content-type: b" ++ LINE_DELIMITER)
       false
     = Ok [(str_of "content-type", [str_of "a"; str_of "b"])].
Proof. split; vm_compute; reflexivity. Qed.

(** Three records of which the second is rejected by the detector: two
    entries in order, one record skipped, no exception. *)
Example three_records_run :
  let (r, raised) :=
    parse Demo.detect Demo.decode Demo.lower Parser_init
          Demo.three_records true in
  raised = None
  /\ self r = {| _loaded_counter := 2; _skip_counter := 1 |}
  /\ map _body (yielded r)
     = [str_of "one" ++ [13%N; 10%N]; str_of "three"]
  /\ warned r = [EncodingDetectionError (Some "windows-1252"%string)].
Proof. vm_compute. repeat split. Qed.

Example three_records_report :
  main Demo.detect Demo.decode Demo.lower Demo.three_records
  = Ok (yielded (fst (parse Demo.detect Demo.decode Demo.lower Parser_init
                            Demo.three_records true)),
        {| _loaded_counter := 2; _skip_counter := 1 |},
        PrimFloat.div 1 3).
Proof. vm_compute. reflexivity. Qed.

(** A header that is not UTF-8 is not one of the two record errors: it
    ends the run. *)
Example header_not_utf8_ends_the_run :
  parse Demo.detect Demo.decode Demo.lower Parser_init
        ([xff] ++ LINE_DELIMITER ++ LINE_DELIMITER ++ bytes_of "body") true
  = (fresh_run, Some UnicodeDecodeError).
Proof. vm_compute. reflexivity. Qed.

(* ================================================================== *)
(** * Further properties of the splitter *)
(* ================================================================== *)

Lemma starts_with_firstn (pat s : bytes) n :
  starts_with Byte.eqb pat s = true -> (List.length pat <= n)%nat ->
  starts_with Byte.eqb pat (firstn n s) = true.
Proof.
  intros H Hn. apply starts_with_iff in H as [t ->].
  rewrite firstn_app, firstn_all2 by lia. apply starts_with_self.
Qed.

(** The delimiter does not start inside the first eight bytes of a buffer
    that begins with the version line. *)
Lemma version_line_delays_delimiter buf i :
  starts_with Byte.eqb VERSION_LINE buf = true ->
  find_nat Byte.eqb BLOCK_DELIMITER buf = Some i -> (8 <= i)%nat.
Proof.
  intros Hv Hf. apply starts_with_iff in Hv as [t ->].
  pose proof (find_nat_occurs _ _ _ Hf) as Hocc.
  rewrite BLOCK_DELIMITER_bytes in Hocc.
  do 8 (destruct i as [|i]; [discriminate Hocc|]). lia.
Qed.

(** What one cut of the inner loop takes from the buffer. *)
Lemma cut_anatomy buf i :
  find_nat Byte.eqb BLOCK_DELIMITER buf = Some i ->
  firstn (i + 2) buf = firstn i buf ++ LINE_DELIMITER
  /\ buf = firstn (i + 2) buf ++ LINE_DELIMITER ++ skipn (i + 4) buf
  /\ starts_with Byte.eqb VERSION_LINE (skipn (i + 4) buf) = true
  /\ find_nat Byte.eqb BLOCK_DELIMITER (firstn (i + 2) buf) = None.
Proof.
  intros F.
  pose proof (find_nat_bound _ _ _ F) as B.
  rewrite BLOCK_DELIMITER_length in B.
  pose proof (find_nat_occurs _ _ _ F) as Hocc.
  apply starts_with_iff in Hocc as [t Ht].
  assert (Hbuf : buf = firstn i buf ++ BLOCK_DELIMITER ++ t).
  { rewrite <- Ht. symmetry. apply firstn_skipn. }
  assert (Hlen : List.length (firstn i buf) = i).
  { rewrite length_firstn. lia. }
  assert (H2 : firstn (i + 2) buf = firstn i buf ++ LINE_DELIMITER).
  { rewrite Hbuf at 1. rewrite firstn_app, Hlen.
    rewrite firstn_all2 by lia.
    replace (i + 2 - i)%nat with 2%nat by lia.
    rewrite BLOCK_DELIMITER_bytes. reflexivity. }
  assert (H4 : skipn (i + 4) buf = VERSION_LINE ++ t).
  { rewrite Hbuf at 1. rewrite skipn_app, Hlen.
    rewrite skipn_all2 by lia.
    replace (i + 4 - i)%nat with 4%nat by lia.
    rewrite BLOCK_DELIMITER_bytes. reflexivity. }
  split; [exact H2|]. split; [|split].
  - rewrite H2, H4, <- app_assoc. rewrite Hbuf at 1.
    rewrite BLOCK_DELIMITER_split. now rewrite <- !app_assoc.
  - rewrite H4. apply starts_with_self.
  - destruct (find_nat Byte.eqb BLOCK_DELIMITER (firstn (i + 2) buf))
      as [j|] eqn:Fj; [|reflexivity].
    exfalso.
    pose proof (find_nat_bound _ _ _ Fj) as Bj.
    rewrite BLOCK_DELIMITER_length, length_firstn in Bj.
    pose proof (find_nat_app _ _ (skipn (i + 2) buf) _ Fj) as Fapp.
    rewrite firstn_skipn in Fapp. rewrite F in Fapp.
    injection Fapp as ->. lia.
Qed.

(** The blocks recorded by the inner loop and the buffer it leaves. *)
Lemma cuts_shape buf :
  exists blocks buf',
    (forall seen,
        inner_loop record_block seen buf = Next (seen ++ blocks) buf')
    /\ buf = List.concat (map (fun b => b ++ LINE_DELIMITER) blocks) ++ buf'
    /\ Forall (fun b => find_nat Byte.eqb BLOCK_DELIMITER b = None) blocks
    /\ find_nat Byte.eqb BLOCK_DELIMITER buf' = None
    /\ Forall (fun b => exists b0, b = b0 ++ LINE_DELIMITER) blocks
    /\ (starts_with Byte.eqb VERSION_LINE buf = true ->
        Forall (fun b => starts_with Byte.eqb VERSION_LINE b = true) blocks
        /\ starts_with Byte.eqb VERSION_LINE buf' = true)
    /\ Forall (fun b => starts_with Byte.eqb VERSION_LINE b = true)
              (tl blocks)
    /\ (blocks <> [] -> starts_with Byte.eqb VERSION_LINE buf' = true).
Proof.
  pattern buf; apply cut_ind; clear buf.
  - intros buf F. exists [], buf. repeat split; try constructor.
    + intros seen. now rewrite app_nil_r, (inner_loop_missing _ _ _ F).
    + exact F.
    + assumption.
    + congruence.
  - intros buf i F
           (blocks & buf' & Hrec & Hcat & Hno & Hno' & Hend & Hver & _ & _).
    destruct (cut_anatomy buf i F) as (H2 & Hbuf & Hv & Hnone).
    destruct (Hver Hv) as [Hall Hlast].
    exists (firstn (i + 2) buf :: blocks), buf'. repeat split.
    + intros seen. rewrite (inner_loop_record_found _ _ _ F), Hrec.
      now rewrite <- app_assoc.
    + cbn [map List.concat]. rewrite <- !app_assoc, <- Hcat. exact Hbuf.
    + constructor; assumption.
    + exact Hno'.
    + constructor; [now exists (firstn i buf) | assumption].
    + constructor; [|exact Hall].
      apply starts_with_firstn; [assumption|].
      pose proof (version_line_delays_delimiter buf i H F).
      unfold VERSION_LINE. simpl. lia.
    + exact Hlast.
    + exact Hall.
    + intros _. exact Hlast.
Qed.

(** The blocks of [raw_blocks]: the blocks cut by the loop, then what is
    left in the buffer when it is not empty. *)
Lemma raw_blocks_shape chunks :
  exists blocks buf',
    raw_blocks chunks
    = blocks ++ (if 0 <? len buf' then [buf'] else [])
    /\ List.concat chunks
       = List.concat (map (fun b => b ++ LINE_DELIMITER) blocks) ++ buf'
    /\ Forall (fun b => find_nat Byte.eqb BLOCK_DELIMITER b = None) blocks
    /\ find_nat Byte.eqb BLOCK_DELIMITER buf' = None
    /\ Forall (fun b => exists b0, b = b0 ++ LINE_DELIMITER) blocks
    /\ Forall (fun b => starts_with Byte.eqb VERSION_LINE b = true)
              (tl blocks)
    /\ (blocks <> [] -> starts_with Byte.eqb VERSION_LINE buf' = true).
Proof.
  destruct (cuts_shape (List.concat chunks))
    as (blocks & buf' & Hrec & Hcat & Hno & Hno' & Hend & _ & Htl & Hlast).
  exists blocks, buf'. repeat split; try assumption.
  unfold raw_blocks. rewrite drive_concat, (Hrec []). cbn [app].
  destruct (0 <? len buf'); [reflexivity | now rewrite app_nil_r].
Qed.

Lemma len_positive {A : Type} (l : list A) :
  (0 <? len l) = true <-> l <> [].
Proof.
  unfold len. destruct l; simpl; split; try congruence; try discriminate.
  intros _. reflexivity.
Qed.

Lemma join_snoc (sep : bytes) blocks last :
  join sep (blocks ++ [last])
  = List.concat (map (fun b => b ++ sep) blocks) ++ last.
Proof.
  induction blocks as [|b blocks IH]; [reflexivity|].
  cbn [map List.concat]. rewrite <- !app_assoc, <- IH.
  destruct blocks; reflexivity.
Qed.

(** X1: nothing is lost and nothing is read twice: the raw blocks, joined
    by one line delimiter, are the bytes read, whatever the chunks; in
    particular for the 4096-byte reads of [parse]. *)
Theorem blocks_rebuild_the_input chunks f :
  join LINE_DELIMITER (raw_blocks chunks) = List.concat chunks
  /\ join LINE_DELIMITER (raw_records (1024 * 4) f) = f.
Proof.
  assert (H : forall cs, join LINE_DELIMITER (raw_blocks cs)
                         = List.concat cs).
  { intros cs.
    destruct (raw_blocks_shape cs)
      as (blocks & buf' & Hraw & Hcat & _ & _ & _ & _ & Hlast).
    rewrite Hraw, Hcat. destruct (0 <? len buf') eqn:E.
    - apply join_snoc.
    - destruct blocks as [|b blocks].
      + destruct buf'; [reflexivity | discriminate E].
      + specialize (Hlast ltac:(discriminate)).
        destruct buf'; discriminate. }
  split; [apply H|].
  unfold raw_records. rewrite H. apply iter_read_concat. lia.
Qed.

(** X2: no raw block holds the block delimiter: a block ends where the
    first delimiter of the buffer starts, and the last block is what is
    left when none is found. *)
Theorem blocks_hold_no_delimiter chunks :
  Forall (fun b => find Byte.eqb b BLOCK_DELIMITER = -1) (raw_blocks chunks).
Proof.
  destruct (raw_blocks_shape chunks)
    as (blocks & buf' & Hraw & _ & Hno & Hno' & _).
  rewrite Hraw. apply Forall_app. split.
  - eapply Forall_impl; [|exact Hno]. intros b Hb. now apply find_missing.
  - destruct (0 <? len buf'); constructor; [|constructor].
    now apply find_missing.
Qed.

(** X3: the framing of the raw blocks: no block is empty, every block but
    the last ends with a line delimiter, and every block but the first
    starts with the line [WARC/1.0 CR LF], which the cut leaves at the
    head of the buffer. *)
Theorem blocks_framing chunks :
  Forall (fun b => b <> []) (raw_blocks chunks)
  /\ Forall (fun b => exists b0, b = b0 ++ LINE_DELIMITER)
            (removelast (raw_blocks chunks))
  /\ Forall (fun b => starts_with Byte.eqb VERSION_LINE b = true)
            (tl (raw_blocks chunks)).
Proof.
  destruct (raw_blocks_shape chunks)
    as (blocks & buf' & Hraw & _ & _ & _ & Hend & Htl & Hlast).
  rewrite Hraw.
  assert (Hne : Forall (fun b : bytes => b <> []) blocks).
  { eapply Forall_impl; [|exact Hend]. intros b [b0 ->] H.
    apply app_eq_nil in H as [_ H]. discriminate H. }
  destruct (0 <? len buf') eqn:E.
  - split; [|split].
    + apply Forall_app. split; [exact Hne|].
      constructor; [|constructor]. now apply len_positive.
    + now rewrite removelast_last.
    + destruct blocks as [|b blocks]; [constructor|].
      cbn [app tl]. apply Forall_app. split; [exact Htl|].
      constructor; [|constructor]. apply Hlast. discriminate.
  - rewrite app_nil_r. split; [exact Hne|]. split; [|exact Htl].
    destruct blocks as [|b blocks]; [constructor|].
    specialize (Hlast ltac:(discriminate)).
    destruct buf'; discriminate.
Qed.

(** X4: a stream that is not empty and holds no block delimiter is one
    record: the read loop cuts nothing, and the final flush hands the
    whole content to [WetEntry], once. *)
Theorem stream_without_delimiter_is_one_block
        detect decode lower size p f cs :
  size <> 0 ->
  f <> [] ->
  find Byte.eqb f BLOCK_DELIMITER = -1 ->
  raw_records size f = [f]
  /\ parse_with detect decode lower size p f cs
     = try_entry detect decode lower cs f fresh_run.
Proof.
  intros Hsize Hf Hfind.
  assert (F : find_nat Byte.eqb BLOCK_DELIMITER f = None).
  { destruct (find_cases f BLOCK_DELIMITER) as [[F _]|(i & _ & Hi)];
      [exact F | lia]. }
  assert (Hraw : raw_records size f = [f]).
  { unfold raw_records, raw_blocks.
    rewrite drive_concat, iter_read_concat by assumption.
    rewrite (inner_loop_missing _ _ _ F).
    apply len_positive in Hf. now rewrite Hf. }
  split; [exact Hraw|].
  rewrite parse_with_feed, Hraw. cbn [feed].
  now destruct (try_entry detect decode lower cs f fresh_run) as [r [e|]].
Qed.

(** One record without any delimiter after it. *)
Lemma stream_without_delimiter_is_one_block_witness :
  (1024 * 4 <> 0
   /\ bytes_of "A: 1" ++ LINE_DELIMITER ++ LINE_DELIMITER ++ bytes_of "one"
      <> []
   /\ find Byte.eqb
        (bytes_of "A: 1" ++ LINE_DELIMITER ++ LINE_DELIMITER
           ++ bytes_of "one") BLOCK_DELIMITER = -1)
  /\ raw_records (1024 * 4)
       (bytes_of "A: 1" ++ LINE_DELIMITER ++ LINE_DELIMITER
          ++ bytes_of "one")
     = [bytes_of "A: 1" ++ LINE_DELIMITER ++ LINE_DELIMITER
          ++ bytes_of "one"].
Proof.
  split; [split; [lia | split; [discriminate | reflexivity]]|].
  apply (stream_without_delimiter_is_one_block
           Demo.detect Demo.decode Demo.lower (1024 * 4) Parser_init
           (bytes_of "A: 1" ++ LINE_DELIMITER ++ LINE_DELIMITER
              ++ bytes_of "one") true);
    [lia | discriminate | reflexivity].
Defined.

(* ================================================================== *)
(** * Further properties of a run *)
(* ================================================================== *)

Lemma feed_try_entry_done detect decode lower cs blocks : forall r r',
  feed (try_entry detect decode lower cs) blocks r = (r', None) ->
  yielded r' = yielded r ++ entries_of detect decode lower cs blocks
  /\ warned r' = warned r ++ errors_of detect decode lower cs blocks.
Proof.
  induction blocks as [|b blocks IH]; intros r r'; cbn [feed].
  - intros [= <-]. unfold entries_of, errors_of. simpl.
    now rewrite !app_nil_r.
  - unfold try_entry at 1, entries_of, errors_of. cbn [flat_map].
    destruct (WetEntry_init detect decode lower b cs) as [entry|e].
    + intros H. apply IH in H as [Hy Hw]. rewrite Hy, Hw. cbn.
      now rewrite <- !app_assoc.
    + destruct (is_record_error e); [|discriminate].
      intros H. apply IH in H as [Hy Hw]. rewrite Hy, Hw. cbn.
      now rewrite <- !app_assoc.
Qed.

Lemma outcomes_length detect decode lower cs blocks :
  (List.length (entries_of detect decode lower cs blocks)
   + List.length (errors_of detect decode lower cs blocks)
   = List.length blocks)%nat.
Proof.
  unfold entries_of, errors_of.
  induction blocks as [|b blocks IH]; [reflexivity|].
  cbn [flat_map]. rewrite !length_app.
  destruct (WetEntry_init detect decode lower b cs); simpl; lia.
Qed.

Lemma feed_try_entry_stopped detect decode lower cs blocks : forall r r' e,
  feed (try_entry detect decode lower cs) blocks r = (r', Some e) ->
  exists before block after,
    blocks = before ++ block :: after
    /\ feed (try_entry detect decode lower cs) before r = (r', None)
    /\ WetEntry_init detect decode lower block cs = Raise e
    /\ is_record_error e = false.
Proof.
  induction blocks as [|b blocks IH]; intros r r' e; cbn [feed];
    [discriminate|].
  destruct (try_entry detect decode lower cs b r) as [r1 [e1|]] eqn:H.
  - intros [= <- <-]. exists [], b, blocks. unfold try_entry in H.
    destruct (WetEntry_init detect decode lower b cs) as [entry|e0];
      [discriminate|].
    destruct (is_record_error e0) eqn:E; [discriminate|].
    injection H as <- <-. repeat split; assumption.
  - intros H'. apply IH in H' as (before & block & after & -> & Hf & Hb & He).
    exists (b :: before), block, after. repeat split; try assumption.
    cbn [feed]. now rewrite H.
Qed.

Lemma WetEntry_init_header_error detect decode lower block cs e :
  WetEntry_init detect decode lower block cs = Raise e ->
  is_record_error e = false ->
  e = UnicodeDecodeError
  /\ _parse_header lower (slice_to block (header_tail_index block)) cs
     = Raise UnicodeDecodeError.
Proof.
  unfold WetEntry_init.
  destruct (_parse_header lower _ cs) as [h|e1] eqn:Hh; cbn [bind].
  - destruct (_parse_body detect decode _) as [b|e2] eqn:Hb; cbn [bind];
      [discriminate|].
    intros [= <-] He. apply parse_body_errors in Hb. congruence.
  - intros [= <-] _. apply parse_header_errors in Hh. now subst.
Qed.

(** X5: a run that ends without an exception has handled every raw block
    once and in order: the entries yielded are those of the blocks that
    [WetEntry] accepts, the errors logged are those of the other blocks,
    and the two counters add up to the number of blocks. *)
Theorem run_is_blockwise detect decode lower size p f cs :
  snd (parse_with detect decode lower size p f cs) = None ->
  yielded (fst (parse_with detect decode lower size p f cs))
  = entries_of detect decode lower cs (raw_records size f)
  /\ warned (fst (parse_with detect decode lower size p f cs))
     = errors_of detect decode lower cs (raw_records size f)
  /\ _loaded_counter (self (fst (parse_with detect decode lower size p f cs)))
     + _skip_counter (self (fst (parse_with detect decode lower size p f cs)))
     = len (raw_records size f).
Proof.
  rewrite parse_with_feed.
  pose proof (feed_counters detect decode lower cs (raw_records size f)
                fresh_run (conj eq_refl eq_refl)) as [Hl Hs].
  destruct (feed (try_entry detect decode lower cs) (raw_records size f)
                 fresh_run) as [r o] eqn:H.
  cbn [fst snd] in *. intros ->.
  apply feed_try_entry_done in H as [Hy Hw]. cbn [fresh_run yielded warned app]
    in Hy, Hw.
  split; [exact Hy|]. split; [exact Hw|].
  rewrite Hl, Hs, Hy, Hw. unfold len.
  pose proof (outcomes_length detect decode lower cs (raw_records size f)).
  lia.
Qed.

(** The three records of the demonstration. *)
Lemma run_is_blockwise_witness :
  snd (parse_with Demo.detect Demo.decode Demo.lower (1024 * 4) Parser_init
                  Demo.three_records true) = None
  /\ _loaded_counter
       (self (fst (parse_with Demo.detect Demo.decode Demo.lower (1024 * 4)
                              Parser_init Demo.three_records true)))
     + _skip_counter
         (self (fst (parse_with Demo.detect Demo.decode Demo.lower (1024 * 4)
                                Parser_init Demo.three_records true)))
     = len (raw_records (1024 * 4) Demo.three_records).
Proof.
  split; [vm_compute; reflexivity|].
  apply (run_is_blockwise Demo.detect Demo.decode Demo.lower (1024 * 4)
           Parser_init Demo.three_records true).
  vm_compute. reflexivity.
Defined.

(** X6: of the exceptions that building a [WetEntry] raises, [parse] lets
    through only the [UnicodeDecodeError] of a header block that is not
    UTF-8.  A run over content that was read, when such an exception
    stops it, stopped at a raw block whose construction raised it, and
    what was yielded and logged before is what the earlier blocks gave.
    (Opening and reading the file, and the detector itself, are taken
    here as returning; what they may raise is outside this statement.) *)
Theorem run_stops_at_bad_header detect decode lower size p f cs r e :
  parse_with detect decode lower size p f cs = (r, Some e) ->
  exists before block after,
    raw_records size f = before ++ block :: after
    /\ WetEntry_init detect decode lower block cs = Raise e
    /\ e = UnicodeDecodeError
    /\ _parse_header lower (slice_to block (header_tail_index block)) cs
       = Raise UnicodeDecodeError
    /\ yielded r = entries_of detect decode lower cs before
    /\ warned r = errors_of detect decode lower cs before.
Proof.
  rewrite parse_with_feed. intros H.
  apply feed_try_entry_stopped in H
    as (before & block & after & Hraw & Hf & Hb & He).
  destruct (WetEntry_init_header_error _ _ _ _ _ _ Hb He) as [Heq Hh].
  exists before, block, after.
  apply feed_try_entry_done in Hf as [Hy Hw].
  repeat split; assumption.
Qed.

(** A first record whose header is the byte 0xFF, then a second record. *)
Lemma run_stops_at_bad_header_witness :
  parse_with Demo.detect Demo.decode Demo.lower (1024 * 4) Parser_init
    ([xff] ++ LINE_DELIMITER ++ LINE_DELIMITER ++ bytes_of "body"
       ++ BLOCK_DELIMITER ++ bytes_of "A: 1" ++ LINE_DELIMITER
       ++ LINE_DELIMITER ++ bytes_of "one") true
  = (fresh_run, Some UnicodeDecodeError)
  /\ exists before block after,
       raw_records (1024 * 4)
         ([xff] ++ LINE_DELIMITER ++ LINE_DELIMITER ++ bytes_of "body"
            ++ BLOCK_DELIMITER ++ bytes_of "A: 1" ++ LINE_DELIMITER
            ++ LINE_DELIMITER ++ bytes_of "one")
       = before ++ block :: after
       /\ WetEntry_init Demo.detect Demo.decode Demo.lower block true
          = Raise UnicodeDecodeError
       /\ UnicodeDecodeError = UnicodeDecodeError
       /\ _parse_header Demo.lower
            (slice_to block (header_tail_index block)) true
          = Raise UnicodeDecodeError
       /\ yielded fresh_run
          = entries_of Demo.detect Demo.decode Demo.lower true before
       /\ warned fresh_run
          = errors_of Demo.detect Demo.decode Demo.lower true before.
Proof.
  assert (H : parse_with Demo.detect Demo.decode Demo.lower (1024 * 4)
                Parser_init
                ([xff] ++ LINE_DELIMITER ++ LINE_DELIMITER ++ bytes_of "body"
                   ++ BLOCK_DELIMITER ++ bytes_of "A: 1" ++ LINE_DELIMITER
                   ++ LINE_DELIMITER ++ bytes_of "one") true
              = (fresh_run, Some UnicodeDecodeError))
    by (vm_compute; reflexivity).
  split; [exact H|].
  exact (run_stops_at_bad_header _ _ _ _ _ _ _ _ _ H).
Defined.

(** X7: an entry is built only from a body that the detector rates at
    least at the threshold and names an encoding for; the entry records
    that name, its body is what the codec of that name returns for the
    bytes after the boundary, and its header is the parsed header
    block. *)
Theorem loaded_entry_is_decoded detect decode lower block cs entry :
  WetEntry_init detect decode lower block cs = Ok entry ->
  PrimFloat.ltb
    (confidence (detect (slice_from block (body_head_index block)))) 0.5
  = false
  /\ (exists name,
         encoding (detect (slice_from block (body_head_index block)))
         = Some name
         /\ _encoding entry = Some name
         /\ decode name (slice_from block (body_head_index block))
            = Ok (_body entry))
  /\ _parse_header lower (slice_to block (header_tail_index block)) cs
     = Ok (_header entry).
Proof.
  unfold WetEntry_init.
  destruct (_parse_header lower _ cs) as [h|e1]; cbn [bind]; [|discriminate].
  unfold _parse_body.
  set (body := slice_from block (body_head_index block)).
  destruct (PrimFloat.ltb (confidence (detect body)) 0.5); [discriminate|].
  destruct (encoding (detect body)) as [name|] eqn:Henc; cbn [decode_with];
    [|discriminate].
  destruct (decode name body) as [text|e2] eqn:Hdec; cbn [bind];
    [|discriminate].
  intros [= <-]. cbn. split; [reflexivity|]. split; [|reflexivity].
  exists name. repeat split. exact Hdec.
Qed.

(** A well-framed record. *)
Lemma loaded_entry_is_decoded_witness :
  WetEntry_init Demo.detect Demo.decode Demo.lower
    (bytes_of "A: 1" ++ LINE_DELIMITER ++ LINE_DELIMITER ++ bytes_of "one")
    true
  = Ok {| _header := [(str_of "A", [str_of "1"])];
          _body := str_of "one";
          _encoding := Some "ascii"%string |}
  /\ _parse_header Demo.lower
       (slice_to
          (bytes_of "A: 1" ++ LINE_DELIMITER ++ LINE_DELIMITER
             ++ bytes_of "one")
          (header_tail_index
             (bytes_of "A: 1" ++ LINE_DELIMITER ++ LINE_DELIMITER
                ++ bytes_of "one"))) true
     = Ok [(str_of "A", [str_of "1"])].
Proof.
  assert (H : WetEntry_init Demo.detect Demo.decode Demo.lower
                (bytes_of "A: 1" ++ LINE_DELIMITER ++ LINE_DELIMITER
                   ++ bytes_of "one") true
              = Ok {| _header := [(str_of "A", [str_of "1"])];
                      _body := str_of "one";
                      _encoding := Some "ascii"%string |})
    by (vm_compute; reflexivity).
  split; [exact H|].
  exact (proj2 (proj2 (loaded_entry_is_decoded _ _ _ _ _ _ H))).
Defined.

(* ================================================================== *)
(** * Further properties of the header parser *)
(* ================================================================== *)

Lemma header_line_ok lower cs d line l :
  utf8_decode line = Some l ->
  header_line lower cs d line
  = Ok (if len l =? 0 then d
        else dict_add (line_key lower cs l) (line_value l) d).
Proof.
  intros H. unfold header_line, bytes_decode. rewrite H. cbn [bind].
  destruct (len l =? 0); [reflexivity|].
  rewrite key_value_len. reflexivity.
Qed.

Lemma header_line_bad lower cs d line :
  utf8_decode line = None ->
  header_line lower cs d line = Raise UnicodeDecodeError.
Proof. intros H. unfold header_line, bytes_decode. now rewrite H. Qed.

Lemma header_lines_ok_iff lower cs lines : forall d,
  (exists d', header_lines lower cs d lines = Ok d')
  <-> Forall (fun line => utf8_decode line <> None) lines.
Proof.
  induction lines as [|line lines IH]; intros d; cbn [header_lines].
  - split; [constructor | now exists d].
  - destruct (utf8_decode line) as [l|] eqn:H.
    + rewrite (header_line_ok _ _ _ _ _ H). cbn [bind]. rewrite IH.
      split; [constructor; [congruence | assumption] | now inversion 1].
    + rewrite (header_line_bad _ _ _ _ H). cbn [bind]. split.
      * intros [d' Hd]. discriminate.
      * inversion 1. congruence.
Qed.

(** X8: the consistency check of line 59 never fires, because the list
    [kv] always has two elements when it is reached; the header parser
    succeeds exactly when every line of the block is valid UTF-8, and
    otherwise raises [UnicodeDecodeError]. *)
Theorem header_fails_only_on_bad_utf8 lower header_block cs :
  (forall l, len (key_value l) = 2)
  /\ ((exists d, _parse_header lower header_block cs = Ok d)
      <-> Forall (fun line => utf8_decode line <> None)
                 (split Byte.eqb header_block LINE_DELIMITER))
  /\ (forall e, _parse_header lower header_block cs = Raise e ->
                e = UnicodeDecodeError).
Proof.
  split; [exact key_value_len|]. split.
  - apply header_lines_ok_iff.
  - intros e. apply parse_header_errors.
Qed.

Lemma split_aux_pieces {A : Type} (eqb : A -> A -> bool) (P : A -> Prop)
      sep s : forall skip cur,
  Forall P cur -> Forall P s ->
  Forall (Forall P) (split_aux eqb sep skip cur s).
Proof.
  induction s as [|x s IH]; intros skip cur Hcur Hs; cbn [split_aux].
  - constructor; [now apply Forall_rev | constructor].
  - inversion Hs as [|? ? Hx Hs']; subst.
    destruct skip; [|now apply IH].
    destruct (starts_with eqb sep (x :: s)).
    + constructor; [now apply Forall_rev|].
      apply IH; [constructor | assumption].
    + apply IH; [now constructor | assumption].
Qed.

Lemma utf8_decode_ascii bs :
  is_ascii bs = true -> utf8_decode bs = Some (map Byte.to_N bs).
Proof.
  unfold is_ascii. induction bs as [|b bs IH]; [reflexivity|].
  cbn [forallb utf8_decode map]. intros H.
  apply andb_true_iff in H as [Hb Hbs]. rewrite Hb, (IH Hbs). reflexivity.
Qed.

(** X9: a header block made of ASCII bytes always parses: no line can
    fail to decode, whatever the line breaks, the colons and the blanks
    are. *)
Theorem ascii_header_always_parses lower header_block cs :
  is_ascii header_block = true ->
  exists d, _parse_header lower header_block cs = Ok d.
Proof.
  intros H. apply header_lines_ok_iff.
  assert (Hall : Forall (fun b => (Byte.to_N b <? 128)%N = true)
                        header_block).
  { apply Forall_forall. now apply forallb_forall. }
  pose proof (split_aux_pieces Byte.eqb _ LINE_DELIMITER header_block
                O [] (Forall_nil _) Hall) as Hpieces.
  eapply Forall_impl; [|exact Hpieces].
  intros line Hline. rewrite utf8_decode_ascii; [discriminate|].
  unfold is_ascii. apply forallb_forall. now apply Forall_forall.
Qed.

(** A header of three lines, one of them without a colon and one with a
    colon only. *)
Lemma ascii_header_always_parses_witness :
  is_ascii (bytes_of "WARC/1.0" ++ LINE_DELIMITER ++ bytes_of ":"
              ++ LINE_DELIMITER ++ bytes_of "A : b : c" ++ LINE_DELIMITER)
  = true
  /\ exists d,
      _parse_header Demo.lower
        (bytes_of "WARC/1.0" ++ LINE_DELIMITER ++ bytes_of ":"
           ++ LINE_DELIMITER ++ bytes_of "A : b : c" ++ LINE_DELIMITER)
        false = Ok d.
Proof.
  split; [reflexivity|].
  apply (ascii_header_always_parses Demo.lower
           (bytes_of "WARC/1.0" ++ LINE_DELIMITER ++ bytes_of ":"
              ++ LINE_DELIMITER ++ bytes_of "A : b : c" ++ LINE_DELIMITER)
           false).
  reflexivity.
Defined.

(** ** Colons *)

Lemma split_colon_none k : forall cur,
  ~ In 58%N k ->
  split_aux N.eqb [58%N] O cur k = [rev cur ++ k].
Proof.
  induction k as [|x k IH]; intros cur Hk; cbn [split_aux].
  - now rewrite app_nil_r.
  - cbn [starts_with]. destruct (N.eqb_spec 58 x) as [E|Hx].
    + exfalso. apply Hk. left. symmetry. exact E.
    + cbn [andb]. rewrite IH by (intros H; apply Hk; now right).
      cbn [rev]. now rewrite <- app_assoc.
Qed.

Lemma split_colon_first k v : forall cur,
  ~ In 58%N k ->
  split_aux N.eqb [58%N] O cur (k ++ 58%N :: v)
  = (rev cur ++ k) :: split_aux N.eqb [58%N] O [] v.
Proof.
  induction k as [|x k IH]; intros cur Hk.
  - cbn [app split_aux starts_with]. rewrite N.eqb_refl. cbn [andb].
    now rewrite app_nil_r.
  - cbn [app split_aux starts_with]. destruct (N.eqb_spec 58 x) as [E|Hx].
    + exfalso. apply Hk. left. symmetry. exact E.
    + cbn [andb]. rewrite IH by (intros H; apply Hk; now right).
      cbn [rev]. now rewrite <- app_assoc.
Qed.

Lemma key_value_of_pieces first rest :
  rest <> [] ->
  (if len (first :: rest) =? 1 then (first :: rest) ++ [[]]
   else if 2 <? len (first :: rest)
        then [nth 0 (first :: rest) [];
              join (str_of ":") (slice_from (first :: rest) 1)]
        else first :: rest)
  = [first; join (str_of ":") rest].
Proof.
  intros Hrest. destruct rest as [|p [|q rest]]; [congruence|reflexivity|].
  destruct (Z.eqb_spec (len (first :: p :: q :: rest)) 1) as [H|_].
  { unfold len in H. simpl in H. lia. }
  destruct (Z.ltb_spec 2 (len (first :: p :: q :: rest))) as [_|H].
  - reflexivity.
  - unfold len in H. simpl in H. lia.
Qed.

(** X10: how a decoded line gives its key and value.  Without a colon the
    key is the stripped line and the value is empty.  With a colon the
    key is the stripped text before the first colon, and the value is
    made of the pieces that the later colons delimit, each stripped,
    joined by colons again; when no colon follows the first one, this is
    the stripped text after it. *)
Theorem line_splits_at_first_colon before after :
  ~ In 58%N before ->
  key_value before = [strip before; []]
  /\ key_value (before ++ 58%N :: after)
     = [strip before;
        join (str_of ":") (map strip (split N.eqb after (str_of ":")))]
  /\ (~ In 58%N after ->
      key_value (before ++ 58%N :: after) = [strip before; strip after]).
Proof.
  intros Hb.
  assert (H2 : key_value (before ++ 58%N :: after)
               = [strip before;
                  join (str_of ":")
                       (map strip (split N.eqb after (str_of ":")))]).
  { unfold key_value, split. change (str_of ":") with [58%N].
    rewrite (split_colon_first before after [] Hb). cbn [rev app map].
    apply key_value_of_pieces. intros H. apply map_eq_nil in H.
    now apply split_aux_nonempty in H. }
  split; [|split].
  - unfold key_value, split. change (str_of ":") with [58%N].
    rewrite (split_colon_none before [] Hb). reflexivity.
  - exact H2.
  - intros Ha. rewrite H2. unfold split. change (str_of ":") with [58%N].
    rewrite (split_colon_none after [] Ha). reflexivity.
Qed.

(** A content type, and a date whose value holds colons. *)
Lemma line_splits_at_first_colon_witness :
  (~ In 58%N (str_of "Content-Type ")
   /\ ~ In 58%N (str_of "WARC-Date"))
  /\ key_value (str_of "Content-Type : text/plain ")
     = [str_of "Content-Type"; str_of "text/plain"]
  /\ key_value (str_of "WARC-Date: 2014-08-02T09:52:13Z")
     = [str_of "WARC-Date"; str_of "2014-08-02T09:52:13Z"].
Proof.
  assert (H1 : ~ In 58%N (str_of "Content-Type "))
    by (vm_compute; intuition discriminate).
  assert (H2 : ~ In 58%N (str_of "WARC-Date"))
    by (vm_compute; intuition discriminate).
  split; [split; assumption|]. split.
  - destruct (line_splits_at_first_colon (str_of "Content-Type ")
                (str_of " text/plain ") H1) as (_ & _ & H).
    apply H. vm_compute. intuition discriminate.
  - destruct (line_splits_at_first_colon (str_of "WARC-Date")
                (str_of " 2014-08-02T09:52:13Z") H2) as (_ & H & _).
    etransitivity; [exact H | vm_compute; reflexivity].
Defined.

(** ** The header as a map from keys to values *)

Lemma str_eqb_spec a b : reflect (a = b) (str_eqb a b).
Proof.
  unfold str_eqb. revert b.
  induction a as [|x a IH]; intros [|y b]; cbn [seq_eqb];
    try (constructor; congruence).
  destruct (N.eqb_spec x y) as [->|H]; cbn [andb].
  - destruct (IH b) as [->|H]; constructor; congruence.
  - constructor; congruence.
Qed.

Lemma dict_contains_get key d :
  dict_contains key d
  = match dict_get key d with Some _ => true | None => false end.
Proof.
  induction d as [|[k vs] d IH]; cbn [dict_contains dict_get];
    [reflexivity|].
  destruct (str_eqb k key); [reflexivity | exact IH].
Qed.

Lemma dict_contains_keys key d :
  dict_contains key d = false -> ~ In key (map fst d).
Proof.
  induction d as [|[k vs] d IH]; cbn [dict_contains map fst In];
    [tauto|].
  destruct (str_eqb_spec k key) as [->|Hk]; [discriminate|].
  cbn [orb]. intros H [E|Hin]; [congruence | now apply IH].
Qed.

Lemma dict_setitem_new key d :
  dict_contains key d = false ->
  dict_setitem key [] d = d ++ [(key, [])].
Proof.
  induction d as [|[k vs] d IH]; cbn [dict_contains dict_setitem app];
    [reflexivity|].
  destruct (str_eqb k key); [discriminate|]. cbn [orb].
  intros H. now rewrite IH.
Qed.

Lemma dict_append_new key v d :
  dict_contains key d = false ->
  dict_append key v (d ++ [(key, [])]) = d ++ [(key, [v])].
Proof.
  induction d as [|[k vs] d IH]; cbn [dict_contains dict_append app].
  - intros _. destruct (str_eqb_spec key key); [reflexivity | congruence].
  - destruct (str_eqb k key); [discriminate|]. cbn [orb].
    intros H. now rewrite IH.
Qed.

(** Adding a value appends to the list of a key that is there, and puts a
    new key at the end otherwise. *)
Lemma dict_add_cases key v d :
  dict_add key v d
  = if dict_contains key d then dict_append key v d else d ++ [(key, [v])].
Proof.
  unfold dict_add. destruct (dict_contains key d) eqn:C; cbn [negb];
    [reflexivity|].
  now rewrite dict_setitem_new, dict_append_new.
Qed.

Lemma dict_get_append key k v d :
  dict_get key (dict_append k v d)
  = if str_eqb k key
    then option_map (fun old => old ++ [v]) (dict_get key d)
    else dict_get key d.
Proof.
  induction d as [|[k' old] d IH]; cbn [dict_append dict_get].
  - now destruct (str_eqb k key).
  - destruct (str_eqb_spec k' k) as [->|Hk]; cbn [dict_get].
    + now destruct (str_eqb k key).
    + rewrite IH.
      destruct (str_eqb_spec k key) as [->|Hkey];
        destruct (str_eqb_spec k' key) as [->|Hkey']; congruence.
Qed.

Lemma dict_get_snoc key k vs d :
  dict_get key (d ++ [(k, vs)])
  = match dict_get key d with
    | Some x => Some x
    | None => if str_eqb k key then Some vs else None
    end.
Proof.
  induction d as [|[k' old] d IH]; cbn [app dict_get]; [reflexivity|].
  now destruct (str_eqb k' key).
Qed.

Lemma dict_get_add key k v d :
  dict_get key (dict_add k v d)
  = if str_eqb k key
    then Some (match dict_get key d with
               | Some old => old ++ [v]
               | None => [v]
               end)
    else dict_get key d.
Proof.
  rewrite dict_add_cases. destruct (dict_contains k d) eqn:C.
  - rewrite dict_get_append.
    destruct (str_eqb_spec k key) as [->|Hk]; [|reflexivity].
    rewrite dict_contains_get in C.
    now destruct (dict_get key d).
  - rewrite dict_get_snoc.
    destruct (str_eqb_spec k key) as [->|Hk].
    + rewrite dict_contains_get in C. now destruct (dict_get key d).
    + now destruct (dict_get key d).
Qed.

Lemma header_lines_fold lower cs lines : forall d d',
  header_lines lower cs d lines = Ok d' ->
  d' = fold_left (header_step lower cs)
                 (flat_map (fun line => match utf8_decode line with
                                        | Some l => [l]
                                        | None => []
                                        end) lines) d.
Proof.
  induction lines as [|line lines IH]; intros d d'; cbn [header_lines].
  - now intros [= <-].
  - destruct (utf8_decode line) as [l|] eqn:H.
    + rewrite (header_line_ok _ _ _ _ _ H). cbn [bind flat_map app].
      rewrite H. cbn [app fold_left]. apply IH.
    + rewrite (header_line_bad _ _ _ _ H). discriminate.
Qed.

Lemma parse_header_fold lower header_block cs d :
  _parse_header lower header_block cs = Ok d ->
  d = fold_left (header_step lower cs) (decoded_lines header_block) [].
Proof. apply header_lines_fold. Qed.

Lemma fold_get lower cs key lines : forall d,
  dict_get key (fold_left (header_step lower cs) lines d)
  = match dict_get key d, values_of lower cs key lines with
    | Some old, vs => Some (old ++ vs)
    | None, [] => None
    | None, vs => Some vs
    end.
Proof.
  induction lines as [|l lines IH]; intros d; cbn [fold_left values_of].
  - destruct (dict_get key d); [now rewrite app_nil_r | reflexivity].
  - rewrite IH. unfold header_step.
    destruct (len l =? 0); cbn [negb andb]; [reflexivity|].
    rewrite dict_get_add.
    destruct (str_eqb (line_key lower cs l) key); [|reflexivity].
    destruct (dict_get key d) as [old|]; [now rewrite <- app_assoc|].
    reflexivity.
Qed.

(** X11: the header maps each key to the values of the lines that carry
    this key, in the order of the lines; a key carried by no line is
    absent.  Empty lines count for nothing, and with the flag off the
    key of a line is its lower-cased key. *)
Theorem header_values_by_key lower header_block cs d :
  _parse_header lower header_block cs = Ok d ->
  forall key,
    dict_get key d
    = match values_of lower cs key (decoded_lines header_block) with
      | [] => None
      | vs => Some vs
      end.
Proof.
  intros H key. rewrite (parse_header_fold _ _ _ _ H), fold_get.
  reflexivity.
Qed.

(** A key that comes three times, once in another case. *)
Lemma header_values_by_key_witness :
  _parse_header Demo.lower
    (bytes_of "K: 1" ++ LINE_DELIMITER ++ bytes_of "other: x"
       ++ LINE_DELIMITER ++ LINE_DELIMITER ++ bytes_of "k: 2"
       ++ LINE_DELIMITER ++ bytes_of "K: 3") false
  = Ok [(str_of "k", [str_of "1"; str_of "2"; str_of "3"]);
        (str_of "other", [str_of "x"])]
  /\ dict_get (str_of "k")
       [(str_of "k", [str_of "1"; str_of "2"; str_of "3"]);
        (str_of "other", [str_of "x"])]
     = Some [str_of "1"; str_of "2"; str_of "3"].
Proof.
  assert (H : _parse_header Demo.lower
                (bytes_of "K: 1" ++ LINE_DELIMITER ++ bytes_of "other: x"
                   ++ LINE_DELIMITER ++ LINE_DELIMITER ++ bytes_of "k: 2"
                   ++ LINE_DELIMITER ++ bytes_of "K: 3") false
              = Ok [(str_of "k", [str_of "1"; str_of "2"; str_of "3"]);
                    (str_of "other", [str_of "x"])])
    by (vm_compute; reflexivity).
  split; [exact H|].
  rewrite (header_values_by_key _ _ _ _ H (str_of "k")).
  vm_compute. reflexivity.
Defined.

(** ** What the header keeps *)

Lemma dict_append_keys key v d :
  map fst (dict_append key v d) = map fst d.
Proof.
  induction d as [|[k vs] d IH]; cbn [dict_append map fst]; [reflexivity|].
  destruct (str_eqb k key); cbn [map fst]; [reflexivity | now rewrite IH].
Qed.

Lemma total_values_cons k vs d :
  total_values ((k, vs) :: d) = (List.length vs + total_values d)%nat.
Proof. reflexivity. Qed.

Lemma dict_append_total key v d :
  dict_contains key d = true ->
  total_values (dict_append key v d) = S (total_values d).
Proof.
  induction d as [|[k vs] d IH]; cbn [dict_contains dict_append];
    [discriminate|].
  destruct (str_eqb k key); cbn [orb]; rewrite !total_values_cons.
  - intros _. rewrite length_app. simpl. lia.
  - intros H. rewrite (IH H). lia.
Qed.

Lemma dict_append_nonempty key v d :
  Forall (fun kv : str * list str => snd kv <> []) d ->
  Forall (fun kv : str * list str => snd kv <> []) (dict_append key v d).
Proof.
  induction 1 as [|[k vs] d Hk Hd IH]; cbn [dict_append]; [constructor|].
  destruct (str_eqb k key); constructor; try assumption.
  cbn [snd]. intros H. apply app_eq_nil in H as [_ H]. discriminate.
Qed.

Lemma total_values_snoc d key vs :
  total_values (d ++ [(key, vs)])
  = (total_values d + List.length vs)%nat.
Proof.
  unfold total_values. rewrite map_app, list_sum_app. simpl. lia.
Qed.

Lemma fold_keeps lower cs lines : forall d,
  NoDup (map fst d) ->
  Forall (fun kv : str * list str => snd kv <> []) d ->
  NoDup (map fst (fold_left (header_step lower cs) lines d))
  /\ Forall (fun kv : str * list str => snd kv <> [])
            (fold_left (header_step lower cs) lines d)
  /\ total_values (fold_left (header_step lower cs) lines d)
     = (total_values d
        + List.length (filter (fun l => negb (len l =? 0)%Z) lines))%nat.
Proof.
  induction lines as [|l lines IH]; intros d Hnd Hne;
    cbn [fold_left filter].
  - repeat split; try assumption. simpl. lia.
  - unfold header_step at 2 4 6.
    destruct (len l =? 0); cbn [negb].
    + now apply IH.
    + set (key := line_key lower cs l). set (v := line_value l).
      rewrite dict_add_cases.
      destruct (dict_contains key d) eqn:C.
      * destruct (IH (dict_append key v d)) as (H1 & H2 & H3).
        { now rewrite dict_append_keys. }
        { now apply dict_append_nonempty. }
        repeat split; try assumption.
        rewrite H3, (dict_append_total _ _ _ C). simpl. lia.
      * destruct (IH (d ++ [(key, [v])])) as (H1 & H2 & H3).
        { rewrite map_app. cbn [map fst].
          apply NoDup_app; [assumption | repeat constructor; tauto |].
          intros x Hx [<-|[]]. now apply dict_contains_keys in C. }
        { apply Forall_app. split; [assumption|].
          constructor; [discriminate | constructor]. }
        repeat split; try assumption.
        rewrite H3, total_values_snoc. simpl. lia.
Qed.

(** X12: a parsed header holds no key twice and no key without a value,
    and it holds as many values as the block has lines that are not
    empty: with either setting of the case flag no line is dropped. *)
Theorem header_keeps_every_line lower header_block cs d :
  _parse_header lower header_block cs = Ok d ->
  NoDup (map fst d)
  /\ Forall (fun kv => snd kv <> []) d
  /\ total_values d
     = List.length (filter (fun l => negb (len l =? 0))
                           (decoded_lines header_block)).
Proof.
  intros H. rewrite (parse_header_fold _ _ _ _ H).
  destruct (fold_keeps lower cs (decoded_lines header_block) []
              (NoDup_nil _) (Forall_nil _)) as (H1 & H2 & H3).
  repeat split; assumption.
Qed.

(** Four lines that are not empty, two of them under one key. *)
Lemma header_keeps_every_line_witness :
  _parse_header Demo.lower
    (bytes_of "WARC/1.0" ++ LINE_DELIMITER ++ bytes_of "K: 1"
       ++ LINE_DELIMITER ++ bytes_of "other: x" ++ LINE_DELIMITER
       ++ bytes_of "K: 2" ++ LINE_DELIMITER) true
  = Ok [(str_of "WARC/1.0", [[]]);
        (str_of "K", [str_of "1"; str_of "2"]);
        (str_of "other", [str_of "x"])]
  /\ total_values
       [(str_of "WARC/1.0", [[]]);
        (str_of "K", [str_of "1"; str_of "2"]);
        (str_of "other", [str_of "x"])]
     = 4%nat.
Proof.
  assert (H : _parse_header Demo.lower
                (bytes_of "WARC/1.0" ++ LINE_DELIMITER ++ bytes_of "K: 1"
                   ++ LINE_DELIMITER ++ bytes_of "other: x" ++ LINE_DELIMITER
                   ++ bytes_of "K: 2" ++ LINE_DELIMITER) true
              = Ok [(str_of "WARC/1.0", [[]]);
                    (str_of "K", [str_of "1"; str_of "2"]);
                    (str_of "other", [str_of "x"])])
    by (vm_compute; reflexivity).
  split; [exact H|].
  destruct (header_keeps_every_line _ _ _ _ H) as (_ & _ & Htotal).
  rewrite Htotal. vm_compute. reflexivity.
Defined.

(** ** Whitespace *)

Lemma lstrip_clean s : starts_clean (lstrip s) = true.
Proof.
  induction s as [|c s IH]; cbn [lstrip]; [reflexivity|].
  destruct (isspace c) eqn:E; [exact IH|]. cbn [starts_clean]. now rewrite E.
Qed.

Lemma clean_lstrip s : starts_clean s = true -> lstrip s = s.
Proof.
  destruct s as [|c s]; cbn [starts_clean lstrip]; [reflexivity|].
  now destruct (isspace c).
Qed.

Lemma clean_rstrip s : starts_clean (rev s) = true -> rstrip s = s.
Proof.
  intros H. unfold rstrip. rewrite (clean_lstrip _ H). apply rev_involutive.
Qed.

Lemma lstrip_snoc c s :
  isspace c = false -> exists m, lstrip (s ++ [c]) = m ++ [c].
Proof.
  intros Hc. induction s as [|x s [m IH]]; cbn [app lstrip].
  - exists []. now rewrite Hc.
  - destruct (isspace x); [now exists m|]. now exists (x :: s).
Qed.

Lemma rstrip_keeps_start s :
  starts_clean s = true -> starts_clean (rstrip s) = true.
Proof.
  destruct s as [|c s]; [reflexivity|]. cbn [starts_clean].
  intros Hc. apply negb_true_iff in Hc. unfold rstrip. cbn [rev].
  destruct (lstrip_snoc c (rev s) Hc) as [m ->].
  rewrite rev_app_distr. cbn [rev app starts_clean]. now rewrite Hc.
Qed.

Lemma strip_clean e :
  starts_clean (strip e) = true /\ starts_clean (rev (strip e)) = true.
Proof.
  unfold strip. split.
  - apply rstrip_keeps_start, lstrip_clean.
  - unfold rstrip. rewrite rev_involutive. apply lstrip_clean.
Qed.

Lemma join_clean pieces :
  pieces <> [] ->
  Forall (fun p => starts_clean p = true /\ starts_clean (rev p) = true)
         pieces ->
  starts_clean (join (str_of ":") pieces) = true
  /\ starts_clean (rev (join (str_of ":") pieces)) = true.
Proof.
  change (str_of ":") with [58%N].
  induction pieces as [|p pieces IH]; [congruence|].
  intros _ Hall. inversion Hall as [|? ? [Hp Hp'] Hrest]; subst.
  destruct pieces as [|q pieces]; [now split|].
  destruct (IH ltac:(discriminate) Hrest) as [_ Hend].
  change (join [58%N] (p :: q :: pieces))
    with (p ++ [58%N] ++ join [58%N] (q :: pieces)).
  split.
  - destruct p as [|c p]; [reflexivity | exact Hp].
  - rewrite !rev_app_distr. cbn [rev app].
    destruct (rev (join [58%N] (q :: pieces))) as [|c t]; [reflexivity|].
    exact Hend.
Qed.

Lemma clean_trimmed s :
  starts_clean s = true /\ starts_clean (rev s) = true -> trimmed s.
Proof.
  intros [H1 H2]. split; [now apply clean_lstrip | now apply clean_rstrip].
Qed.

Lemma key_value_clean l :
  Forall (fun p => starts_clean p = true /\ starts_clean (rev p) = true)
         (key_value l).
Proof.
  unfold key_value.
  set (kv := map (fun e => rstrip (lstrip e)) (split N.eqb l (str_of ":"))).
  assert (Hkv : Forall (fun p => starts_clean p = true
                                 /\ starts_clean (rev p) = true) kv).
  { unfold kv. apply Forall_map, Forall_forall. intros e _.
    apply (strip_clean e). }
  destruct (len kv =? 1).
  - apply Forall_app. split; [exact Hkv|]. now repeat constructor.
  - destruct (2 <? len kv); [|exact Hkv].
    destruct kv as [|a kv]; [now repeat constructor|].
    inversion Hkv as [|? ? Ha Hrest]; subst.
    change (slice_from (a :: kv) 1) with kv. cbn [nth].
    constructor; [exact Ha|]. constructor; [|constructor].
    destruct kv as [|b kv]; [now split|].
    now apply join_clean.
Qed.

Lemma dict_append_trimmed key v d :
  trimmed v ->
  Forall (fun kv => trimmed (fst kv) /\ Forall trimmed (snd kv)) d ->
  Forall (fun kv => trimmed (fst kv) /\ Forall trimmed (snd kv))
         (dict_append key v d).
Proof.
  intros Hv. induction 1 as [|[k vs] d [Hk Hvs] Hd IH]; cbn [dict_append];
    [constructor|].
  destruct (str_eqb k key).
  - constructor; [|exact Hd]. cbn [fst snd] in *. split; [exact Hk|].
    apply Forall_app. split; [exact Hvs|].
    constructor; [exact Hv | constructor].
  - constructor; [now split | exact IH].
Qed.

(** X13: keys and values carry no whitespace at either end: stripping
    the key or the value of any line again changes nothing, and with the
    case flag on the same holds for every key and value of a parsed
    header. *)
Theorem keys_and_values_are_trimmed lower header_block d :
  _parse_header lower header_block true = Ok d ->
  Forall (fun kv => trimmed (fst kv) /\ Forall trimmed (snd kv)) d
  /\ (forall l, trimmed (line_key lower true l) /\ trimmed (line_value l)).
Proof.
  assert (Hline : forall l,
             trimmed (line_key lower true l) /\ trimmed (line_value l)).
  { intros l. unfold line_key, line_value.
    pose proof (key_value_clean l) as H.
    pose proof (key_value_len l) as Hlen.
    destruct (key_value l) as [|a [|b [|c kv]]];
      unfold len in Hlen; simpl in Hlen; try lia.
    inversion H as [|? ? Ha H']; subst.
    inversion H' as [|? ? Hb _]; subst.
    split; now apply clean_trimmed. }
  intros H. split; [|exact Hline].
  rewrite (parse_header_fold _ _ _ _ H).
  generalize (decoded_lines header_block) as lines.
  assert (Hgen : forall lines d0,
             Forall (fun kv => trimmed (fst kv) /\ Forall trimmed (snd kv))
                    d0 ->
             Forall (fun kv => trimmed (fst kv) /\ Forall trimmed (snd kv))
                    (fold_left (header_step lower true) lines d0)).
  { induction lines as [|l lines IH]; intros d0 Hd0; cbn [fold_left];
      [exact Hd0|].
    apply IH. unfold header_step. destruct (len l =? 0); [exact Hd0|].
    destruct (Hline l) as [Hk Hv].
    rewrite dict_add_cases. destruct (dict_contains _ d0).
    - now apply dict_append_trimmed.
    - apply Forall_app. split; [exact Hd0|].
      constructor; [|constructor]. cbn [fst snd].
      split; [exact Hk|]. constructor; [exact Hv | constructor]. }
  intros lines. apply Hgen. constructor.
Qed.

(** Blanks around the key, the value and an inner colon. *)
Lemma keys_and_values_are_trimmed_witness :
  _parse_header Demo.lower (bytes_of "  Key  :  a  :  b  ") true
  = Ok [(str_of "Key", [str_of "a:b"])]
  /\ Forall (fun kv => trimmed (fst kv) /\ Forall trimmed (snd kv))
            [(str_of "Key", [str_of "a:b"])].
Proof.
  assert (H : _parse_header Demo.lower (bytes_of "  Key  :  a  :  b  ") true
              = Ok [(str_of "Key", [str_of "a:b"])])
    by (vm_compute; reflexivity).
  split; [exact H|].
  exact (proj1 (keys_and_values_are_trimmed _ _ _ H)).
Defined.

(* ================================================================== *)
(** * Further properties of [WetEntry] and of the report *)
(* ================================================================== *)

(** X14: a block made of a header, two line delimiters and a body, where
    these two delimiters are the first blank line of the block, is split
    there: the header is parsed from the header text followed by one
    line delimiter and the body is everything after the second one, so
    blank lines inside the body move nothing. *)
Theorem entry_of_framed_block detect decode lower header body cs :
  find Byte.eqb (header ++ LINE_DELIMITER ++ LINE_DELIMITER)
       (repeat_seq 2 LINE_DELIMITER) = len header ->
  WetEntry_init detect decode lower
    (header ++ LINE_DELIMITER ++ LINE_DELIMITER ++ body) cs
  = (h <- _parse_header lower (header ++ LINE_DELIMITER) cs ;;
     b <- _parse_body detect decode body ;;
     Ok {| _header := h; _body := fst b; _encoding := snd b |}).
Proof.
  intros Hfind.
  assert (F : find_nat Byte.eqb (repeat_seq 2 LINE_DELIMITER)
                (header ++ LINE_DELIMITER ++ LINE_DELIMITER)
              = Some (List.length header)).
  { destruct (find_cases (header ++ LINE_DELIMITER ++ LINE_DELIMITER)
                         (repeat_seq 2 LINE_DELIMITER))
      as [[_ Hm]|(i & Hi & Hz)].
    - rewrite Hm in Hfind. unfold len in Hfind. lia.
    - rewrite Hz in Hfind. unfold len in Hfind.
      apply Nat2Z.inj in Hfind. now subst. }
  apply (find_nat_app _ _ body) in F. rewrite <- !app_assoc in F.
  unfold WetEntry_init, body_head_index, header_tail_index.
  rewrite (find_found _ _ _ F). change (len LINE_DELIMITER) with 2.
  replace (Z.of_nat (List.length header) + 2)
    with (Z.of_nat (List.length header + 2)) by lia.
  replace (Z.of_nat (List.length header + 2) + 2)
    with (Z.of_nat (List.length header + 4)) by lia.
  rewrite slice_to_nat, slice_from_nat.
  rewrite firstn_app, skipn_app, firstn_all2, skipn_all2 by lia.
  replace (List.length header + 2 - List.length header)%nat with 2%nat
    by lia.
  replace (List.length header + 4 - List.length header)%nat with 4%nat
    by lia.
  reflexivity.
Qed.

(** A body that holds a blank line of its own. *)
Lemma entry_of_framed_block_witness :
  find Byte.eqb (bytes_of "A: 1" ++ LINE_DELIMITER ++ LINE_DELIMITER)
       (repeat_seq 2 LINE_DELIMITER) = len (bytes_of "A: 1")
  /\ WetEntry_init Demo.detect Demo.decode Demo.lower
       (bytes_of "A: 1" ++ LINE_DELIMITER ++ LINE_DELIMITER
          ++ (bytes_of "x" ++ LINE_DELIMITER ++ LINE_DELIMITER
                ++ bytes_of "y")) true
     = Ok {| _header := [(str_of "A", [str_of "1"])];
             _body := str_of "x" ++ [13; 10; 13; 10]%N ++ str_of "y";
             _encoding := Some "ascii"%string |}.
Proof.
  split; [reflexivity|].
  rewrite (entry_of_framed_block Demo.detect Demo.decode Demo.lower
             (bytes_of "A: 1")
             (bytes_of "x" ++ LINE_DELIMITER ++ LINE_DELIMITER
                ++ bytes_of "y") true eq_refl).
  vm_compute. reflexivity.
Defined.

(** X15: the last log line gets a ratio only from a run that no
    exception stopped and that handled at least one record; the entries
    and counters reported are those of that run. *)
Theorem report_needs_a_record detect decode lower f entries counters ratio :
  main detect decode lower f = Ok (entries, counters, ratio) ->
  snd (parse detect decode lower Parser_init f true) = None
  /\ entries = yielded (fst (parse detect decode lower Parser_init f true))
  /\ counters = self (fst (parse detect decode lower Parser_init f true))
  /\ 0 < _loaded_counter counters + _skip_counter counters
  /\ f <> [].
Proof.
  unfold main.
  pose proof (feed_counters detect decode lower true
                (raw_records (1024 * 4) f) fresh_run (conj eq_refl eq_refl))
    as [Hl Hs].
  rewrite <- (parse_with_feed detect decode lower (1024 * 4) Parser_init
                              f true) in Hl, Hs.
  change (parse_with detect decode lower (1024 * 4) Parser_init f true)
    with (parse detect decode lower Parser_init f true) in Hl, Hs.
  destruct (parse detect decode lower Parser_init f true)
    as [r [e|]] eqn:Hrun; [discriminate|].
  cbn [fst snd] in *.
  destruct (skip_ratio (self r)) as [x|e] eqn:Hratio; cbn [bind];
    [|discriminate].
  intros [= <- <- <-].
  assert (Hpos : 0 < _loaded_counter (self r) + _skip_counter (self r)).
  { destruct (self r) as [loaded skipped]. cbn in *.
    assert (0 <= loaded) by (rewrite Hl; unfold len; lia).
    assert (0 <= skipped) by (rewrite Hs; unfold len; lia).
    destruct (Z.eq_dec loaded 0) as [->|]; [|lia].
    destruct (Z.eq_dec skipped 0) as [->|]; [|lia].
    vm_compute in Hratio. discriminate. }
  repeat split; try assumption.
  intros ->. unfold parse, parse_with in Hrun. cbn in Hrun.
  injection Hrun as <-. cbn in Hpos. lia.
Qed.

(** The three records of the demonstration. *)
Lemma report_needs_a_record_witness :
  main Demo.detect Demo.decode Demo.lower Demo.three_records
  = Ok (yielded (fst (parse Demo.detect Demo.decode Demo.lower Parser_init
                            Demo.three_records true)),
        {| _loaded_counter := 2; _skip_counter := 1 |},
        PrimFloat.div 1 3)
  /\ 0 < _loaded_counter {| _loaded_counter := 2; _skip_counter := 1 |}
         + _skip_counter {| _loaded_counter := 2; _skip_counter := 1 |}.
Proof.
  assert (H : main Demo.detect Demo.decode Demo.lower Demo.three_records
              = Ok (yielded (fst (parse Demo.detect Demo.decode Demo.lower
                                        Parser_init Demo.three_records true)),
                    {| _loaded_counter := 2; _skip_counter := 1 |},
                    PrimFloat.div 1 3))
    by (vm_compute; reflexivity).
  split; [exact H|].
  exact (proj1 (proj2 (proj2 (proj2
           (report_needs_a_record _ _ _ _ _ _ _ H))))).
Defined.

(* ================================================================== *)
(** * Blocks without a header/body boundary: the outcomes *)
(* ================================================================== *)

Lemma utf8_decode_high_byte b :
  (Byte.to_N b <? 128)%N = false -> utf8_decode [b] = None.
Proof.
  intros H. cbn [utf8_decode]. rewrite H.
  repeat match goal with
         | |- context [if ?c then _ else _] => destruct c
         end; reflexivity.
Qed.

Lemma parse_header_high_byte lower cs b :
  (Byte.to_N b <? 128)%N = false ->
  _parse_header lower [b] cs = Raise UnicodeDecodeError.
Proof.
  intros H. unfold _parse_header, split.
  cbn [split_aux starts_with LINE_DELIMITER].
  rewrite andb_false_r. cbn [rev app header_lines].
  now rewrite (header_line_bad _ _ _ _ (utf8_decode_high_byte b H)).
Qed.

(** C9, as stated, fails: a block without two consecutive line
    delimiters is not always turned into an entry.  The five bytes of the
    line [e-acute: v] have a first byte that is not UTF-8 on its own, so
    the one-byte header raises [UnicodeDecodeError], which ends the run;
    and the two bytes [ab] leave an empty body, which a detector that
    rates an empty body at 0, as chardet does, rejects. *)
Lemma boundary_less_block_can_fail :
  find Byte.eqb [xc3; xa9; x3a; x20; x76] (repeat_seq 2 LINE_DELIMITER) = -1
  /\ WetEntry_init Demo.detect Demo.decode Demo.lower
       [xc3; xa9; x3a; x20; x76] true
     = Raise UnicodeDecodeError
  /\ parse Demo.detect Demo.decode Demo.lower Parser_init
           [xc3; xa9; x3a; x20; x76] true
     = (fresh_run, Some UnicodeDecodeError)
  /\ find Byte.eqb (bytes_of "ab") (repeat_seq 2 LINE_DELIMITER) = -1
  /\ WetEntry_init Demo.detect Demo.decode Demo.lower (bytes_of "ab") true
     = Raise (EncodingDetectionError None)
  /\ parse Demo.detect Demo.decode Demo.lower Parser_init (bytes_of "ab") true
     = (entry_skipped (EncodingDetectionError None) fresh_run, None).
Proof. repeat split; vm_compute; reflexivity. Qed.

(** C9, amended: for every block without two consecutive line delimiters
    there is no framing check: [find] gives -1, the header is parsed
    from [block[:1]] and the body is decoded from [block[3:]], and the
    construction is that of these two slices; it never raises the
    assertion of the header parser.  When the first byte is not ASCII the
    one-byte header raises [UnicodeDecodeError], which [parse] lets
    through.  When it is ASCII, or the block is empty, the header parses
    (to one key at most) and the block is mis-split without a trace: the
    outcome is that of the truncated body alone, an entry when it is
    decoded, and otherwise one of the two record errors, which [parse]
    counts as a skip. *)
Theorem entry_without_boundary detect decode lower block cs :
  find Byte.eqb block (repeat_seq 2 LINE_DELIMITER) = -1 ->
  header_tail_index block = 1
  /\ body_head_index block = 3
  /\ WetEntry_init detect decode lower block cs
     = (h <- _parse_header lower (slice_to block 1) cs ;;
        b <- _parse_body detect decode (slice_from block 3) ;;
        Ok {| _header := h; _body := fst b; _encoding := snd b |})
  /\ WetEntry_init detect decode lower block cs <> Raise AssertionError
  /\ (is_ascii (slice_to block 1) = false ->
      WetEntry_init detect decode lower block cs = Raise UnicodeDecodeError
      /\ forall r, try_entry detect decode lower cs block r
                   = (r, Some UnicodeDecodeError))
  /\ (is_ascii (slice_to block 1) = true ->
      exists h,
        _parse_header lower (slice_to block 1) cs = Ok h
        /\ (List.length h <= 1)%nat
        /\ WetEntry_init detect decode lower block cs
           = match _parse_body detect decode (slice_from block 3) with
             | Ok b => Ok {| _header := h; _body := fst b;
                             _encoding := snd b |}
             | Raise e => Raise e
             end
        /\ forall r,
            try_entry detect decode lower cs block r
            = match _parse_body detect decode (slice_from block 3) with
              | Ok b => (entry_loaded {| _header := h; _body := fst b;
                                         _encoding := snd b |} r, None)
              | Raise e => (entry_skipped e r, None)
              end).
Proof.
  intros Hfind.
  destruct (boundary_less_slices detect decode lower block cs Hfind)
    as (Ht & Hb & Hinit & Hassert & Hascii).
  change 1 with (Z.of_nat 1). change 3 with (Z.of_nat 3).
  rewrite slice_to_nat, slice_from_nat.
  split; [exact Ht|]. split; [exact Hb|]. split; [exact Hinit|].
  split; [exact Hassert|]. split.
  - intros Hhigh.
    assert (Hraise : WetEntry_init detect decode lower block cs
                     = Raise UnicodeDecodeError).
    { rewrite Hinit. destruct block as [|b block]; [discriminate Hhigh|].
      cbn [firstn is_ascii forallb] in *. rewrite andb_true_r in Hhigh.
      now rewrite (parse_header_high_byte lower cs b Hhigh). }
    split; [exact Hraise|].
    intros r. unfold try_entry. now rewrite Hraise.
  - intros Hlow. destruct (Hascii Hlow) as (h & Hh & Hlen).
    assert (Hres : WetEntry_init detect decode lower block cs
                   = match _parse_body detect decode (skipn 3 block) with
                     | Ok b => Ok {| _header := h; _body := fst b;
                                     _encoding := snd b |}
                     | Raise e => Raise e
                     end).
    { rewrite Hinit, Hh. cbn [bind].
      now destruct (_parse_body detect decode (skipn 3 block)). }
    exists h. split; [exact Hh|]. split; [exact Hlen|].
    split; [exact Hres|].
    intros r. unfold try_entry. rewrite Hres.
    destruct (_parse_body detect decode (skipn 3 block)) as [b|e] eqn:Hbody;
      [reflexivity|].
    now rewrite (parse_body_errors _ _ _ _ Hbody).
Qed.

(** Six bytes without any line delimiter: the second and third bytes
    belong neither to the header nor to the body. *)
Lemma entry_without_boundary_witness :
  find Byte.eqb (bytes_of "abcdef") (repeat_seq 2 LINE_DELIMITER) = -1
  /\ WetEntry_init Demo.detect Demo.decode Demo.lower (bytes_of "abcdef") true
     = Ok {| _header := [(str_of "a", [[]])];
             _body := str_of "def";
             _encoding := Some "ascii"%string |}.
Proof.
  split; [reflexivity|].
  destruct (entry_without_boundary Demo.detect Demo.decode Demo.lower
              (bytes_of "abcdef") true eq_refl) as (_ & _ & Hinit & _).
  rewrite Hinit. vm_compute. reflexivity.
Defined.
